(** * bandwidth.py: scene production and calibration for camera bandwidth tests

    A shallow embedding of [src/bandwidth.py] (classes [Datapath] and
    [Controller]) and the properties of its search loops, score sampling,
    score extraction and scene assembly.

    Conventions of the embedding
    - Python [int] values are [Z]. Python floats are binary64 numbers and
      are embedded as the rationals [Q] they denote; every operation on
      floats rounds its exact result to the nearest binary64 number, ties to
      even ([Py.fl]). Infinities and NaN are not modelled: the numbers of
      the program stay far from overflow. The exact value is written where
      it is the float's for the numbers that occur: the tenth of the
      resolution under [int], the mean and the variance of at most twenty
      motion scores, and the target plus or minus the tolerance, for a
      tolerance with few binary digits such as 2 or 0.5.
    - The programs started by name without a guard, [ffplay] and [ffmpeg],
      are taken to be installed: starting them does not fail. The start of
      [detail], which the program guards with [try], may fail.
    - Text is [string]; a character is a code point below 256.
    - The instance attributes live in per-type attribute stores, like the
      instance dictionary of a Python object: reading an attribute that was
      never assigned raises [AttributeError].
    - Everything the program does to the outside (console commands,
      subprocesses, sleeps, files written) is appended to an event log; what
      the outside answers is a function of that log ([Device]).
    - [while True] loops take fuel; [print] calls are left out. *)

From Stdlib Require Import ZArith QArith Qround Qabs Reals List String Ascii Bool.
From Stdlib Require Import Lia Psatz DecimalString RelationClasses.
Import ListNotations.

Open Scope string_scope.
Open Scope Z_scope.

(** ** Python library functions used by the program *)

Module Py.

(** [int(x)] on a number: truncation toward zero. *)
Definition int (q : Q) : Z := Z.quot (Qnum q) (Z.pos (Qden q)).

(** *** Floats

    [ilog2 n d] is the integer part of the binary logarithm of [n / d],
    for positive [n] and [d]. *)
Definition ilog2 (n d : Z) : Z :=
  let k := Z.log2 n - Z.log2 d in
  if n * 2 ^ (Z.max 0 (- k)) <? d * 2 ^ (Z.max 0 k) then k - 1 else k.

(** [n / d] rounded to the nearest integer, ties to even; [n >= 0],
    [d > 0]. *)
Definition round_half_even (n d : Z) : Z :=
  let m := n / d in
  let r := n mod d in
  if 2 * r <? d then m
  else if d <? 2 * r then m + 1
  else if Z.even m then m else m + 1.

(** [m * 2^e] as a rational in lowest terms. *)
Definition scale2 (m e : Z) : Q :=
  if 0 <=? e then inject_Z (m * 2 ^ e) else Qred (Qmake m (Z.to_pos (2 ^ (- e)))).

(** Rounding to binary64: 53 significant bits, exponent of the last bit
    at least -1074, round to nearest, ties to even. *)
Definition fl (q : Q) : Q :=
  let n := Z.abs (Qnum q) in
  let d := Z.pos (Qden q) in
  if n =? 0 then 0%Q
  else
    let e := Z.max (ilog2 n d - 52) (-1074) in
    let m := round_half_even (n * 2 ^ (Z.max 0 (- e))) (d * 2 ^ (Z.max 0 e)) in
    if Qnum q <? 0 then Qopp (scale2 m e) else scale2 m e.

(** [a + b], [a - b], [a * b] and [a / b] on floats (or on an [int] and a
    float). *)
Definition fadd (a b : Q) : Q := fl (a + b).
Definition fsub (a b : Q) : Q := fl (a - b).
Definition fmul (a b : Q) : Q := fl (a * b).
Definition fdiv (a b : Q) : Q := fl (a / b).

(** [math.sqrt(x)] for [x >= 0]: the square root, correctly rounded. With
    [m] the integer part of [sqrt(x / 4^e)], the root lies below, on or
    above [(m + 1/2) * 2^e] as [4 * x / 4^e] compares with [(2m + 1)^2]. *)
Definition fsqrt (q : Q) : Q :=
  let n := Qnum q in
  let d := Z.pos (Qden q) in
  if n <=? 0 then 0%Q
  else
    let e := Z.max (ilog2 n d / 2 - 52) (-1074) in
    let tn := n * 2 ^ (Z.max 0 (- (2 * e))) in
    let td := d * 2 ^ (Z.max 0 (2 * e)) in
    let m := Z.sqrt (tn / td) in
    let m' := if 4 * tn <? (2 * m + 1) * (2 * m + 1) * td then m
              else if (2 * m + 1) * (2 * m + 1) * td <? 4 * tn then m + 1
              else if Z.even m then m else m + 1 in
    scale2 m' e.

(** [str(n)] for an integer. *)
Definition str (n : Z) : string := NilZero.string_of_int (Z.to_int n).

(** [range(start, stop, step)] for a positive step. *)
Definition range (start stop step : Z) : list Z :=
  map (fun k => start + step * Z.of_nat k)
      (seq 0 (Z.to_nat ((stop - start + step - 1) / step))).

(** [l[i]] with Python's negative indices. *)
Definition index {A} (l : list A) (i : Z) : option A :=
  if i <? 0 then
    if i + Z.of_nat (List.length l) <? 0 then None
    else nth_error l (Z.to_nat (i + Z.of_nat (List.length l)))
  else nth_error l (Z.to_nat i).

Fixpoint set_nth {A} (l : list A) (n : nat) (v : A) : option (list A) :=
  match l, n with
  | [], _ => None
  | _ :: t, O => Some (v :: t)
  | h :: t, S n' => option_map (cons h) (set_nth t n' v)
  end.

(** [l[i] = v]; [None] stands for [IndexError]. *)
Definition setitem {A} (l : list A) (i : Z) (v : A) : option (list A) :=
  if i <? 0 then
    if i + Z.of_nat (List.length l) <? 0 then None
    else set_nth l (Z.to_nat (i + Z.of_nat (List.length l))) v
  else set_nth l (Z.to_nat i) v.

(** [l[i:]] with Python's negative indices: from the end, clipped at the
    start of the list. *)
Definition slice_from {A} (i : Z) (l : list A) : list A :=
  if i <? 0 then skipn (Z.to_nat (i + Z.of_nat (List.length l))) l
  else skipn (Z.to_nat i) l.

Definition sum (l : list Z) : Z := fold_right Z.add 0 l.

(** [int(statistics.mean(l))] on integers: the exact mean, truncated. *)
Definition int_mean (l : list Z) : Z := Z.quot (sum l) (Z.of_nat (List.length l)).

(** [numpy.var(l)]: the mean of the squared deviations from the mean. *)
Definition mean (l : list Z) : Q := inject_Z (sum l) / inject_Z (Z.of_nat (List.length l)).

Definition sq_dev (mu : Q) (x : Z) : Q := (inject_Z x - mu) * (inject_Z x - mu).

Definition var (l : list Z) : Q :=
  fold_right Qplus 0%Q (map (sq_dev (mean l)) l) / inject_Z (Z.of_nat (List.length l)).

Definition Qlt_bool (a b : Q) : bool := negb (Qle_bool b a).

(** *** Regular expressions

    The three patterns of the program have one shape: a literal prefix
    ending in [\s], the group [(\d+)], and a suffix that starts with a
    character class disjoint from the digits. [re.search] returns the
    leftmost match; the greedy [\d+] never has to give a digit back because
    the suffix cannot start on a digit. *)

Definition is_digit (c : ascii) : bool :=
  let n := nat_of_ascii c in (48 <=? n)%nat && (n <=? 57)%nat.

(** [\s] on a [str] pattern: Unicode white space; below 256 these are
    9..13, 28..32, 133 and 160. *)
Definition is_space (c : ascii) : bool :=
  let n := nat_of_ascii c in
  ((9 <=? n) && (n <=? 13) || (28 <=? n) && (n <=? 32)
   || (n =? 133) || (n =? 160))%nat.

Inductive atom := Lit (c : ascii) | Space.

Definition atom_matches (a : atom) (c : ascii) : bool :=
  match a with
  | Lit d => Ascii.eqb c d
  | Space => is_space c
  end.

Definition lits (s : string) : list atom := map Lit (list_ascii_of_string s).

(** Match a sequence of one-character atoms at the head of [s]; the rest
    of the text is returned. *)
Fixpoint match_atoms (p : list atom) (s : list ascii) : option (list ascii) :=
  match p, s with
  | [], _ => Some s
  | a :: p', c :: s' => if atom_matches a c then match_atoms p' s' else None
  | _ :: _, [] => None
  end.

(** The longest run of digits at the head of [s], and what follows it. *)
Fixpoint take_digits (s : list ascii) : list ascii * list ascii :=
  match s with
  | c :: s' =>
      if is_digit c then let (d, r) := take_digits s' in (c :: d, r)
      else ([], s)
  | [] => ([], [])
  end.

(** Match [pre (\d+) post] at the head of [s]; the digits of the group. *)
Definition match_here (pre post : list atom) (s : list ascii) : option (list ascii) :=
  match match_atoms pre s with
  | Some r =>
      match take_digits r with
      | ([], _) => None
      | (d, r') =>
          match match_atoms post r' with
          | Some _ => Some d
          | None => None
          end
      end
  | None => None
  end.

(** [re.search(pre (\d+) post, s)]: the group of the leftmost match. *)
Fixpoint search_from (pre post : list atom) (s : list ascii) : option (list ascii) :=
  match match_here pre post s with
  | Some d => Some d
  | None =>
      match s with
      | [] => None
      | _ :: s' => search_from pre post s'
      end
  end.

(** [int(m.group(1))] on a run of digits. *)
Definition int_of_digits (d : list ascii) : Z :=
  fold_left (fun acc c => 10 * acc + (Z.of_nat (nat_of_ascii c) - 48)) d 0.

Record pattern := { pre : list atom; post : list atom }.

Definition re_search (p : pattern) (s : string) : option Z :=
  option_map int_of_digits (search_from (pre p) (post p) (list_ascii_of_string s)).

(** What it means for a text to contain a match of [pre (\d+) post]:
    the declarative reading of the regular expression. *)
Definition atoms_match (p : list atom) (w : list ascii) : Prop :=
  Forall2 (fun a c => atom_matches a c = true) p w.

Definition contains_match (p : pattern) (s : string) : Prop :=
  exists before w1 ds w2 after,
    list_ascii_of_string s = (before ++ w1 ++ ds ++ w2 ++ after)%list
    /\ atoms_match (pre p) w1
    /\ ds <> [] /\ Forall (fun c => is_digit c = true) ds
    /\ atoms_match (post p) w2.

(** The suffix of the pattern starts with an atom that matches no digit. *)
Definition suffix_starts_off_digits (p : pattern) : Prop :=
  exists a rest, post p = a :: rest
    /\ forall c, is_digit c = true -> atom_matches a c = false.

End Py.

#[global] Arguments Py.fl : simpl never.
#[global] Arguments Py.fadd : simpl never.
#[global] Arguments Py.fsub : simpl never.
#[global] Arguments Py.fmul : simpl never.
#[global] Arguments Py.fdiv : simpl never.
#[global] Arguments Py.fsqrt : simpl never.

(** ** Data of the program *)

(** A rectangle dictionary [{'x':_, 'y':_, 'length':_, 'height':_}]. *)
Record Rect := mkRect { rect_x : Q; rect_y : Q; rect_length : Q; rect_height : Q }.

(** The variables a call of [make_frame] closes over, with its own
    argument [theta]: everything the drawn image depends on. *)
Record Frame := mkFrame {
  f_theta : Z;          (* rotation angle, degrees *)
  f_length : Z;         (* surface width *)
  f_height : Z;         (* surface height *)
  f_mo_size : Q;        (* length of the rotating rectangle *)
  f_mo_size_y : Z;      (* self.mo_size_y, its width *)
  f_fineness : Z;       (* edge of the background tile *)
  f_rect1 : Rect;
  f_rect2 : Rect
}.

(** What the program does to the outside world. *)
Inductive Event :=
| ConsoleCmd (cmd : string)          (* camera.avigilon_client.execute_console_cmd *)
| SubprocessRun (cmd : string)       (* subprocess.run: waits for the command *)
| SubprocessPopen (cmd : string)     (* subprocess.Popen: starts the command *)
| Sleep (seconds : Q)                (* time.sleep *)
| WritePng (path : string) (frame : Frame)   (* surf.write_to_png *)
| FfmpegRun (input : string) (framerate : Z) (output : string)
            (pix_fmt loglevel : string) (overwrite_output : bool).

(** What the outside world answers, given everything done so far. *)
Record Device := {
  (* the ['Output'] field of the console's reply to a command *)
  console_output : list Event -> string -> string;
  (* the standard output of a command run through [subprocess.Popen];
     [None] when the program is not found ([FileNotFoundError]) *)
  popen_stdout : list Event -> string -> option string
}.

Inductive ZAttr :=
| hor_res | ver_res | fineness | high_detail | low_detail | sample_range
| motion_score | mo_size_y | motion_target | high_detail_target
| low_detail_target | direction | height | box_motion_margin | rect1_x_pos
| length_2.

Inductive QAttr := tolerance | mo_size | x_limit | length_1 | rect2_x_pos.

Inductive RAttr := rect1 | rect2.

Definition ZAttr_code (a : ZAttr) : positive :=
  match a with
  | hor_res => 1 | ver_res => 2 | fineness => 3 | high_detail => 4
  | low_detail => 5 | sample_range => 6 | motion_score => 7 | mo_size_y => 8
  | motion_target => 9 | high_detail_target => 10 | low_detail_target => 11
  | direction => 12 | height => 13 | box_motion_margin => 14
  | rect1_x_pos => 15 | length_2 => 16
  end%positive.

Definition QAttr_code (a : QAttr) : positive :=
  match a with
  | tolerance => 1 | mo_size => 2 | x_limit => 3 | length_1 => 4 | rect2_x_pos => 5
  end%positive.

Definition RAttr_code (a : RAttr) : positive :=
  match a with rect1 => 1 | rect2 => 2 end%positive.

(** The attributes of a [Datapath] / [Controller] object. *)
Record Self := mkSelf {
  filepath : string;
  rtsp : string;
  zattrs : ZAttr -> option Z;
  qattrs : QAttr -> option Q;
  rattrs : RAttr -> option Rect;
  motion_list : list Z;
  rects : list Rect;
  poss : list Q;
  lengths : list Q
}.

Record St := mkSt { self : Self; log : list Event }.

Inductive Exn := AttributeError | IndexError | UnboundLocalError | SystemExit.

Inductive Outcome (A : Type) :=
| Ok (a : A) (s : St)
| Raise (e : Exn) (s : St)
| OutOfFuel (s : St).

Arguments Ok {A} a s.
Arguments Raise {A} e s.
Arguments OutOfFuel {A} s.

(** Computations of the program: state passing with exceptions. *)
Definition M (A : Type) : Type := St -> Outcome A.

Definition ret {A} (a : A) : M A := fun s => Ok a s.

Definition bind {A B} (m : M A) (k : A -> M B) : M B :=
  fun s =>
    match m s with
    | Ok a s' => k a s'
    | Raise e s' => Raise e s'
    | OutOfFuel s' => OutOfFuel s'
    end.

Definition raise {A} (e : Exn) : M A := fun s => Raise e s.

Declare Scope prog_scope.
Delimit Scope prog_scope with prog.
Notation "x <- m ;; k" := (bind m (fun x => k))
  (at level 61, m at next level, right associativity) : prog_scope.
Notation "m ;; k" := (bind m (fun _ => k))
  (at level 61, right associativity) : prog_scope.
Open Scope prog_scope.

Definition upd {K V} (code : K -> positive) (f : K -> V) (k : K) (v : V) : K -> V :=
  fun k' => if Pos.eqb (code k') (code k) then v else f k'.

Definition with_zattr (a : ZAttr) (v : Z) (o : Self) : Self :=
  mkSelf (filepath o) (rtsp o) (upd ZAttr_code (zattrs o) a (Some v)) (qattrs o)
         (rattrs o) (motion_list o) (rects o) (poss o) (lengths o).

Definition with_qattr (a : QAttr) (v : Q) (o : Self) : Self :=
  mkSelf (filepath o) (rtsp o) (zattrs o) (upd QAttr_code (qattrs o) a (Some v))
         (rattrs o) (motion_list o) (rects o) (poss o) (lengths o).

Definition with_rattr (a : RAttr) (v : Rect) (o : Self) : Self :=
  mkSelf (filepath o) (rtsp o) (zattrs o) (qattrs o)
         (upd RAttr_code (rattrs o) a (Some v)) (motion_list o) (rects o) (poss o)
         (lengths o).

Definition with_motion_list (l : list Z) (o : Self) : Self :=
  mkSelf (filepath o) (rtsp o) (zattrs o) (qattrs o) (rattrs o) l (rects o)
         (poss o) (lengths o).

Definition with_rects (l : list Rect) (o : Self) : Self :=
  mkSelf (filepath o) (rtsp o) (zattrs o) (qattrs o) (rattrs o) (motion_list o) l
         (poss o) (lengths o).

Definition with_poss (l : list Q) (o : Self) : Self :=
  mkSelf (filepath o) (rtsp o) (zattrs o) (qattrs o) (rattrs o) (motion_list o)
         (rects o) l (lengths o).

Definition with_lengths (l : list Q) (o : Self) : Self :=
  mkSelf (filepath o) (rtsp o) (zattrs o) (qattrs o) (rattrs o) (motion_list o)
         (rects o) (poss o) l.

Definition gets {A} (f : Self -> A) : M A := fun s => Ok (f (self s)) s.

Definition modify (f : Self -> Self) : M unit :=
  fun s => Ok tt (mkSt (f (self s)) (log s)).

(** [self.a] for an attribute that may not have been assigned yet. *)
Definition attr {A} (f : Self -> option A) : M A :=
  fun s =>
    match f (self s) with
    | Some v => Ok v s
    | None => Raise AttributeError s
    end.

Definition attr_z (a : ZAttr) : M Z := attr (fun o => zattrs o a).
Definition attr_q (a : QAttr) : M Q := attr (fun o => qattrs o a).
Definition attr_r (a : RAttr) : M Rect := attr (fun o => rattrs o a).
Definition set_z (a : ZAttr) (v : Z) : M unit := modify (with_zattr a v).
Definition set_q (a : QAttr) (v : Q) : M unit := modify (with_qattr a v).
Definition set_r (a : RAttr) (v : Rect) : M unit := modify (with_rattr a v).

(** [l[i]], raising [IndexError] out of range. *)
Definition item {A} (l : list A) (i : Z) : M A :=
  match Py.index l i with
  | Some v => ret v
  | None => raise IndexError
  end.

Definition emit (e : Event) : M unit :=
  fun s => Ok tt (mkSt (self s) (log s ++ [e])%list).

Fixpoint for_each {A} (l : list A) (body : A -> M unit) : M unit :=
  match l with
  | [] => ret tt
  | a :: l' => body a ;; for_each l' body
  end.

(** [while True: ...] over the loop's local variables [X]: the body either
    goes round again with new locals ([inl]) or leaves the loop ([inr]). *)
Fixpoint while_true {X B} (fuel : nat) (body : X -> M (X + B)) (x : X) : M B :=
  match fuel with
  | O => fun s => OutOfFuel s
  | S fuel' =>
      r <- body x ;;
      match r with
      | inl x' => while_true fuel' body x'
      | inr b => ret b
      end
  end.

(** The first [n] rounds of such a loop: the locals after them, or the
    value with which the loop was left earlier. *)
Fixpoint rounds {X B} (n : nat) (body : X -> M (X + B)) (x : X) : M (X + B) :=
  match n with
  | O => ret (inl x)
  | S n' =>
      r <- body x ;;
      match r with
      | inl x' => rounds n' body x'
      | inr b => ret (inr b)
      end
  end.

(** ** The program *)

(** The default value of [rect1] and [rect2] in [make_scene]. *)
Definition default_rect : Rect := mkRect 0 0 0 0.

(** The double quote character inside a command line. *)
Definition dq : string := String "034" EmptyString.

Definition high_pattern : Py.pattern :=
  {| Py.pre := Py.lits "HighDetail:" ++ [Py.Space]; Py.post := Py.lits "%" |}%list.

Definition low_pattern : Py.pattern :=
  {| Py.pre := Py.lits "LowDetail:" ++ [Py.Space]; Py.post := Py.lits "%" |}%list.

Definition motion_pattern : Py.pattern :=
  {| Py.pre := Py.lits "30s:" ++ [Py.Space];
     Py.post := Py.Space :: Py.lits "percent" |}%list.

(** The attributes [__init__] assigns. *)
Definition initial_self (filepath_ rtsp_ : string) (tolerance_ : Q) : Self :=
  mkSelf filepath_ rtsp_
    (fun a => match a with
              | hor_res => Some 3840
              | ver_res => Some 2160
              | fineness => Some 9
              | _ => None
              end)
    (fun a => match a with tolerance => Some tolerance_ | _ => None end)
    (fun _ => None) [] [] [] [].

Definition scene_file (filepath_ name : string) : string :=
  filepath_ ++ "\bw_frames\" ++ name ++ ".mp4".

Definition frame_file (filepath_ label : string) : string :=
  filepath_ ++ "\bw_frames\" ++ label ++ ".png".

(** The command line that loops and trims [video.mp4] into the scene. *)
Definition loop_command (filepath_ name : string) : string :=
  "ffmpeg -t 03:00 -loglevel fatal -y -stream_loop 1000 -i "
  ++ dq ++ filepath_ ++ "\bw_frames\video.mp4" ++ dq
  ++ " -c copy " ++ dq ++ scene_file filepath_ name ++ dq.

(** The command line that plays [file] full screen. *)
Definition ffplay_command (file : string) : string :=
  "ffplay -fs -loglevel fatal -autoexit " ++ dq ++ file ++ dq.

(** The file [play_scene] plays. *)
Definition played_file (filepath_ : string) : string :=
  filepath_ ++ "\bw_frames\scene.mp4".

Definition play_command (filepath_ : string) : string :=
  ffplay_command (played_file filepath_).

Definition capture_command (rtsp_ filepath_ : string) : string :=
  "ffmpeg -rtsp_transport tcp -loglevel error -i " ++ rtsp_
  ++ " -y " ++ filepath_ ++ "\test.png".

Definition detail_command : string := "detail " ++ dq ++ "test.png" ++ dq.

(** The angle and the label of each frame of a scene, in the order drawn. *)
Definition frame_schedule : list (Z * string) :=
  [(0, "0"); (9, "1"); (18, "2"); (27, "3"); (36, "4"); (45, "5"); (54, "6");
   (63, "7"); (72, "8"); (81, "9"); (90, "10"); (99, "11"); (108, "12");
   (117, "13"); (126, "14"); (135, "15"); (144, "16"); (153, "17"); (162, "18");
   (171, "19"); (180, "20")].

(** What one call of [make_scene] does to the outside: the frames, the
    encoding of [video.mp4] and the loop-and-trim command. *)
Definition scene_events (fp : string) (mo : Q) (len hgt msy fin : Z) (r1 r2 : Rect)
    (name : string) : list Event :=
  (map (fun tl => WritePng (frame_file fp (snd tl))
                    (mkFrame (fst tl) len hgt mo msy fin r1 r2)) frame_schedule
   ++ [FfmpegRun (fp ++ "\bw_frames\%d.png") 50 (fp ++ "\bw_frames\video.mp4")
         "yuv420p" "fatal" true;
       SubprocessRun (loop_command fp name)])%list.

Section Program.

Variable device : Device.

Definition execute_console_cmd (cmd : string) : M string :=
  fun s => Ok (console_output device (log s) cmd)
              (mkSt (self s) (log s ++ [ConsoleCmd cmd])%list).

(** [subprocess.Popen(cmd, stdout=PIPE).communicate()[0].decode("utf-8")];
    [None] when [Popen] raises [FileNotFoundError]. *)
Definition popen_communicate (cmd : string) : M (option string) :=
  fun s => Ok (popen_stdout device (log s) cmd)
              (mkSt (self s) (log s ++ [SubprocessPopen cmd])%list).

(** *** class Datapath *)

Definition Datapath_init (filepath_ rtsp_ : string) (tolerance_ : Q) : M unit :=
  modify (fun _ => initial_self filepath_ rtsp_ tolerance_) ;;
  execute_console_cmd "dev" ;;
  execute_console_cmd "sys.motiondetectionalgo" ;;
  ret tt.

Definition capture_frames : M unit :=
  r <- gets rtsp ;;
  fp <- gets filepath ;;
  emit (SubprocessRun (capture_command r fp)).

Definition check_detail : M unit :=
  output <- popen_communicate detail_command ;;
  match output with
  | None => raise SystemExit
  | Some output_str =>
      match Py.re_search high_pattern output_str with
      | Some v => set_z high_detail v
      | None => ret tt
      end ;;
      match Py.re_search low_pattern output_str with
      | Some v => set_z low_detail v
      | None => ret tt
      end
  end.

Definition check_motion_body (_ : unit) : M (unit + unit) :=
  daemon_output <- execute_console_cmd "ms" ;;
  match Py.re_search motion_pattern daemon_output with
  | None => raise AttributeError
  | Some motion_detec =>
      l <- gets motion_list ;;
      modify (with_motion_list (l ++ [motion_detec])%list) ;;
      emit (Sleep 3) ;;
      l <- gets motion_list ;;
      n <- attr_z sample_range ;;
      if Z.of_nat (List.length l) <? n then ret (inl tt)
      else if Z.of_nat (List.length l) =? 20 then
        set_z motion_score (Py.int_mean l) ;; ret (inr tt)
      else
        let data_set := Py.slice_from (- n) l in
        if Qeq_bool (Py.var data_set) 0 then
          v <- item data_set (-1) ;;
          set_z motion_score v ;; ret (inr tt)
        else ret (inl tt)
  end.

Definition check_motion (fuel : nat) : M unit :=
  set_z sample_range 10 ;;
  modify (with_motion_list []) ;;
  while_true fuel check_motion_body tt.

Definition make_frame (mo_size_ : Q) (length_ height_ fineness_ : Z)
    (r1 r2 : Rect) (theta : Z) (label : string) : M unit :=
  msy <- attr_z mo_size_y ;;
  fp <- gets filepath ;;
  emit (WritePng (frame_file fp label)
          (mkFrame theta length_ height_ mo_size_ msy fineness_ r1 r2)).

Definition make_scene (mo_size_ : Q) (length_ height_ : option Z) (fineness_ : Z)
    (r1 r2 : Rect) (name : string) : M unit :=
  hr <- attr_z hor_res ;;
  set_z mo_size_y (Py.int (inject_Z hr * (1 # 10))) ;;
  length_ <- match length_ with Some l => ret l | None => attr_z hor_res end ;;
  height_ <- match height_ with Some h => ret h | None => attr_z ver_res end ;;
  for_each (Py.range 0 181 9)
    (fun i => make_frame mo_size_ length_ height_ fineness_ r1 r2 i
                (Py.str (Py.int (inject_Z i / 9)))) ;;
  fp <- gets filepath ;;
  emit (FfmpegRun (fp ++ "\bw_frames\%d.png") 50 (fp ++ "\bw_frames\video.mp4")
          "yuv420p" "fatal" true) ;;
  emit (SubprocessRun (loop_command fp name)).

Definition play_scene : M unit :=
  fp <- gets filepath ;;
  emit (SubprocessPopen (play_command fp)).

Definition pscc (fuel : nat) (wait_time : Q) (parameter : string) : M unit :=
  play_scene ;;
  emit (Sleep wait_time) ;;
  if String.eqb parameter "detail" then capture_frames ;; check_detail
  else if String.eqb parameter "motion" then check_motion fuel
  else raise SystemExit.

(** *** class Controller(Datapath) *)

(** [make_scene(mo_size=self.mo_size, fineness=self.fineness, rect1=r1,
    rect2=r2, name=name)] *)
Definition make_scene_self (r1 r2 : Rect) (name : string) : M unit :=
  mo <- attr_q mo_size ;;
  f <- attr_z fineness ;;
  make_scene mo None None f r1 r2 name.

(** One round of the loop of [make_motion]; the locals are [(x1, x2)]. *)
Definition make_motion_body (fuel : nat) (b : Q * Q) : M (Q * Q + unit) :=
  let (x1, x2) := b in
  set_q mo_size (Py.fdiv (Py.fadd x1 x2) 2) ;;
  mo <- attr_q mo_size ;;
  make_scene mo None None 6 default_rect default_rect "scene" ;;
  pscc fuel 30 "motion" ;;
  ms <- attr_z motion_score ;;
  mt <- attr_z motion_target ;;
  if ms =? mt then ret (inr tt)
  else if ms >? mt then mo <- attr_q mo_size ;; ret (inl (x1, mo))
  else if ms <? mt then mo <- attr_q mo_size ;; ret (inl (mo, x2))
  else ret (inl (x1, x2)).

Definition make_motion (fuel : nat) : M unit :=
  hr <- attr_z hor_res ;;
  while_true fuel (make_motion_body fuel) (0%Q, inject_Z hr).

(** [abs(self.high_detail - self.high_detail_target)] *)
Definition high_delta : M Z :=
  hd <- attr_z high_detail ;;
  t <- attr_z high_detail_target ;;
  ret (Z.abs (hd - t)).

(** One round of the first loop of [hd_delta]: probe one step up. *)
Definition hd_probe_body (fuel : nat) (delta_i : Z) (_ : unit) : M (unit + Z) :=
  f <- attr_z fineness ;;
  set_z fineness (f + 1) ;;
  r1 <- attr_r rect1 ;;
  r2 <- attr_r rect2 ;;
  make_scene_self r1 r2 "scene" ;;
  pscc fuel 5 "detail" ;;
  delta <- high_delta ;;
  if delta >? delta_i then set_z direction (-1) ;; ret (inr delta)
  else if delta <? delta_i then set_z direction 1 ;; ret (inr delta)
  else ret (inl tt).

(** One round of the second loop of [hd_delta]; the local is [delta]. *)
Definition hd_step_body (fuel : nat) (delta : Z) : M (Z + unit) :=
  f <- attr_z fineness ;;
  d <- attr_z direction ;;
  set_z fineness (f + d) ;;
  let previous_delta := delta in
  r1 <- attr_r rect1 ;;
  r2 <- attr_r rect2 ;;
  make_scene_self r1 r2 "scene" ;;
  pscc fuel 5 "detail" ;;
  delta <- high_delta ;;
  if delta <? previous_delta then ret (inl delta)
  else if delta >? previous_delta then
    f <- attr_z fineness ;;
    d <- attr_z direction ;;
    set_z fineness (f + - d) ;;
    ret (inr tt)
  else ret (inl delta).

Definition hd_delta (fuel : nat) : M unit :=
  delta_i <- high_delta ;;
  delta <- while_true fuel (hd_probe_body fuel delta_i) tt ;;
  while_true fuel (hd_step_body fuel) delta.

(** [tune_rect] inside [ld_rect]. *)
Definition tune_rect (fuel : nat) (rect_num : Z) : M unit :=
  let rect_num := rect_num + -1 in
  ps <- gets poss ;;
  p <- item ps rect_num ;;
  ls <- gets lengths ;;
  l <- item ls rect_num ;;
  h <- attr_z height ;;
  rs <- gets rects ;;
  match Py.setitem rs rect_num (mkRect p 0 l (inject_Z h)) with
  | Some rs' => modify (with_rects rs')
  | None => raise IndexError
  end ;;
  rs <- gets rects ;;
  r <- item rs 0 ;;
  set_r rect1 r ;;
  rs <- gets rects ;;
  r <- item rs 1 ;;
  set_r rect2 r ;;
  r1 <- attr_r rect1 ;;
  r2 <- attr_r rect2 ;;
  make_scene_self r1 r2 "scene" ;;
  pscc fuel 5 "detail".

(** [self.lengths[rect_num] + self.poss[rect_num]] *)
Definition right_edge (rect_num : Z) : M Q :=
  ls <- gets lengths ;;
  l <- item ls rect_num ;;
  ps <- gets poss ;;
  p <- item ps rect_num ;;
  ret (Py.fadd l p).

(** One round of the loop of [bisection] inside [ld_rect]; [rect_num] is
    already the list index, the locals are [(x1, x2)]. *)
Definition bisection_body (fuel : nat) (rect_num : Z) (b : Q * Q) : M (Q * Q + unit) :=
  let (x1, x2) := b in
  ps <- gets poss ;;
  p <- item ps rect_num ;;
  ls <- gets lengths ;;
  match Py.setitem ls rect_num (Py.fsub (Py.fdiv (Py.fadd x2 x1) 2) p) with
  | Some ls' => modify (with_lengths ls')
  | None => raise IndexError
  end ;;
  tune_rect fuel (rect_num + 1) ;;
  ld <- attr_z low_detail ;;
  lt <- attr_z low_detail_target ;;
  tol <- attr_q tolerance ;;
  if Py.Qlt_bool (inject_Z ld) (inject_Z lt - tol) then
    e <- right_edge rect_num ;; ret (inl (e, x2))
  else if Py.Qlt_bool (inject_Z lt + tol) (inject_Z ld) then
    e <- right_edge rect_num ;; ret (inl (x1, e))
  else if Qle_bool (inject_Z (Z.abs (ld - lt))) tol then ret (inr tt)
  else ret (inl (x1, x2)).

Definition bisection (fuel : nat) (rect_num : Z) : M unit :=
  let rect_num := rect_num + -1 in
  ps <- gets poss ;;
  x1 <- item ps rect_num ;;
  xl <- attr_q x_limit ;;
  hr <- attr_z hor_res ;;
  let x2 := Py.fadd xl (Py.fmul (inject_Z rect_num) (Py.fsub (inject_Z hr) xl)) in
  while_true fuel (bisection_body fuel rect_num) (x1, x2).

(** [self.hor_res/2 - int(math.sqrt((self.mo_size/2)**2 + (self.mo_size_y/2)**2))],
    the part of the two [x_limit] formulas that depends on the motion
    object, operation by operation on floats. *)
Definition beside_motion_object (hr : Z) (mo : Q) (msy : Z) : Q :=
  Py.fsub (Py.fdiv (inject_Z hr) 2)
    (inject_Z (Py.int (Py.fsqrt
       (Py.fadd (Py.fmul (Py.fdiv mo 2) (Py.fdiv mo 2))
                (Py.fmul (Py.fdiv (inject_Z msy) 2) (Py.fdiv (inject_Z msy) 2)))))).

(** The assignments of [ld_rect] before its first [tune_rect]. *)
Definition ld_rect_setup : M unit :=
  vr <- attr_z ver_res ;;
  set_z height vr ;;
  set_z box_motion_margin 100 ;;
  hr <- attr_z hor_res ;;
  mo <- attr_q mo_size ;;
  msy <- attr_z mo_size_y ;;
  bmm <- attr_z box_motion_margin ;;
  set_q x_limit (Py.fsub (beside_motion_object hr mo msy) (inject_Z bmm)) ;;
  xl <- attr_q x_limit ;;
  set_q length_1 xl ;;
  set_z length_2 0 ;;
  set_z rect1_x_pos 0 ;;
  hr <- attr_z hor_res ;;
  xl <- attr_q x_limit ;;
  set_q rect2_x_pos (Py.fsub (inject_Z hr) xl) ;;
  p1 <- attr_z rect1_x_pos ;;
  l1 <- attr_q length_1 ;;
  h <- attr_z height ;;
  set_r rect1 (mkRect (inject_Z p1) 0 l1 (inject_Z h)) ;;
  p2 <- attr_q rect2_x_pos ;;
  l2 <- attr_z length_2 ;;
  h <- attr_z height ;;
  set_r rect2 (mkRect p2 0 (inject_Z l2) (inject_Z h)) ;;
  r1 <- attr_r rect1 ;;
  r2 <- attr_r rect2 ;;
  modify (with_rects [r1; r2]) ;;
  modify (with_poss [inject_Z p1; p2]) ;;
  modify (with_lengths [l1; inject_Z l2]).

Definition ld_rect (fuel : nat) : M unit :=
  ld_rect_setup ;;
  tune_rect fuel 1 ;;
  ld <- attr_z low_detail ;;
  lt <- attr_z low_detail_target ;;
  tol <- attr_q tolerance ;;
  if Py.Qlt_bool (inject_Z ld) (inject_Z lt - tol) then bisection fuel 2
  else if Py.Qlt_bool (inject_Z lt + tol) (inject_Z ld) then bisection fuel 1
  else if Qle_bool (inject_Z (Z.abs (ld - lt))) tol then ret tt
  else ret tt.

(** [make_scene(mo_size=self.mo_size, fineness=self.fineness)] *)
Definition make_plain_scene : M unit :=
  make_scene_self default_rect default_rect "scene".

(** One round of the rectangle loop of [high_detail_scenes]. *)
Definition high_rect_body (fuel : nat) (b : Q * Q) : M (Q * Q + unit) :=
  let (x1, x2) := b in
  p <- attr_z rect1_x_pos ;;
  set_q length_1 (Py.fsub (Py.fdiv (Py.fadd x2 x1) 2) (inject_Z p)) ;;
  p <- attr_z rect1_x_pos ;;
  l <- attr_q length_1 ;;
  h <- attr_z height ;;
  set_r rect1 (mkRect (inject_Z p) 0 l (inject_Z h)) ;;
  r1 <- attr_r rect1 ;;
  make_scene_self r1 default_rect "scene" ;;
  pscc fuel 5 "detail" ;;
  ld <- attr_z low_detail ;;
  lt <- attr_z low_detail_target ;;
  if ld >=? lt then ret (inr tt)
  else
    hd <- attr_z high_detail ;;
    ht <- attr_z high_detail_target ;;
    tol <- attr_q tolerance ;;
    if Py.Qlt_bool (inject_Z hd) (inject_Z ht - tol) then
      l <- attr_q length_1 ;; p <- attr_z rect1_x_pos ;;
      ret (inl (x1, Py.fadd l (inject_Z p)))
    else if Py.Qlt_bool (inject_Z ht + tol) (inject_Z hd) then
      l <- attr_q length_1 ;; p <- attr_z rect1_x_pos ;;
      ret (inl (Py.fadd l (inject_Z p), x2))
    else if Qle_bool (inject_Z (Z.abs (hd - ht))) tol then ret (inr tt)
    else ret (inl (x1, x2)).

Definition high_detail_scenes (fuel : nat) (motion_target_ : Z) : M unit :=
  set_z high_detail_target 60 ;;
  set_z low_detail_target 30 ;;
  set_z motion_target motion_target_ ;;
  set_z box_motion_margin 100 ;;
  set_r rect1 default_rect ;;
  set_r rect2 default_rect ;;
  make_motion fuel ;;
  make_plain_scene ;;
  pscc fuel 5 "detail" ;;
  hd_delta fuel ;;
  make_plain_scene ;;
  pscc fuel 5 "detail" ;;
  hd <- attr_z high_detail ;;
  ht <- attr_z high_detail_target ;;
  tol <- attr_q tolerance ;;
  hs_pass <-
    (if Qle_bool (inject_Z (Z.abs (hd - ht))) tol then ret true
     else if Py.Qlt_bool (inject_Z ht + tol) (inject_Z hd) then ret false
     else if Py.Qlt_bool (inject_Z hd) (inject_Z ht - tol) then
       f <- attr_z fineness ;;
       set_z fineness (f + -1) ;;
       make_plain_scene ;;
       pscc fuel 5 "detail" ;;
       ret false
     else raise UnboundLocalError) ;;
  hr <- attr_z hor_res ;;
  set_z rect1_x_pos (Py.int (inject_Z hr * (1 # 10))) ;;
  hr <- attr_z hor_res ;;
  mo <- attr_q mo_size ;;
  msy <- attr_z mo_size_y ;;
  bmm <- attr_z box_motion_margin ;;
  p <- attr_z rect1_x_pos ;;
  set_q x_limit
          (Py.fsub (Py.fsub (beside_motion_object hr mo msy) (inject_Z bmm))
             (inject_Z p)) ;;
  vr <- attr_z ver_res ;;
  set_z height vr ;;
  set_q length_1 0 ;;
  (if negb hs_pass then
     x1 <- attr_z rect1_x_pos ;;
     x2 <- attr_q x_limit ;;
     while_true fuel (high_rect_body fuel) (inject_Z x1, x2)
   else ret tt) ;;
  r1 <- attr_r rect1 ;;
  mt <- attr_z motion_target ;;
  make_scene_self r1 default_rect ("high_" ++ Py.str mt ++ "%").

(** One round of the fineness loop of [low_detail_scenes]. *)
Definition low_fineness_body (fuel : nat) (_ : unit) : M (unit + unit) :=
  pscc fuel 5 "detail" ;;
  hd <- attr_z high_detail ;;
  ht <- attr_z high_detail_target ;;
  if hd >=? ht then
    f <- attr_z fineness ;; set_z fineness (f + 1) ;;
    make_plain_scene ;; ret (inl tt)
  else if hd <? ht then
    f <- attr_z fineness ;; set_z fineness (f + 1) ;;
    make_plain_scene ;; ret (inr tt)
  else ret (inl tt).

Definition low_detail_scenes (fuel : nat) (motion_target_ : Z) : M unit :=
  set_z high_detail_target 30 ;;
  set_z low_detail_target 60 ;;
  set_z motion_target motion_target_ ;;
  make_motion fuel ;;
  make_plain_scene ;;
  pscc fuel 5 "detail" ;;
  while_true fuel (low_fineness_body fuel) tt ;;
  ld_rect fuel ;;
  r1 <- attr_r rect1 ;;
  r2 <- attr_r rect2 ;;
  mt <- attr_z motion_target ;;
  make_scene_self r1 r2 ("low_" ++ Py.str mt ++ "%").

Definition medium_detail_scenes (fuel : nat) (motion_target_ : Z) : M unit :=
  set_z high_detail_target 30 ;;
  set_z low_detail_target 30 ;;
  set_z motion_target motion_target_ ;;
  make_motion fuel ;;
  make_plain_scene ;;
  ld_rect fuel ;;
  hd_delta fuel ;;
  r1 <- attr_r rect1 ;;
  r2 <- attr_r rect2 ;;
  mt <- attr_z motion_target ;;
  make_scene_self r1 r2 ("medium_" ++ Py.str mt ++ "%") ;;
  pscc fuel 5 "detail".

End Program.

(** ** The drawing of one frame

    [make_frame] draws through pycairo. The calls it makes are kept as a
    list of operations; [Cairo.run] gives them their meaning on an ideal
    surface: an image assigns a colour to every point of the plane, [fill]
    paints the points enclosed by the current path, and a pixel of the
    written file is the colour at its centre. Every outline the program
    draws is a rectangle with sides parallel to the user-space axes, so the
    points enclosed by a sub-path are those inside the bounding box of its
    vertices, taken in user space. *)

Module Cairo.

Local Open Scope R_scope.

Definition Point : Type := R * R.

Record Color := rgba { red : Q; green : Q; blue : Q; alpha : Q }.

Definition Image : Type := Point -> Color.

(** A new [ImageSurface(FORMAT_ARGB32, ...)] is transparent. *)
Definition blank : Image := fun _ => rgba 0 0 0 0.

Inductive Source :=
| Solid (c : Color)
| Surface (img : Image) (w h : Z) (repeat : bool).

Inductive op :=
| move_to (x y : Q)
| line_to (x y : Q)
| rectangle (x y w h : Q)
| set_source_rgb (r g b : Q)
| set_source_surface (img : Image) (w h : Z)
| set_extend_repeat
| fill
| scale (sx sy : Q)
| translate (tx ty : Q)
| rotate_degrees (theta : Z).          (* rotate(theta * math.pi / 180) *)

(** A sub-path: its vertices in user space and the map from the surface
    to user space that was current when it was drawn. *)
Record Subpath := { vertices : list Point; to_user_then : Point -> Point }.

Record Context := {
  target : Image;
  source : Source;
  path : list Subpath;
  to_user : Point -> Point
}.

Definition new_context : Context :=
  {| target := blank; source := Solid (rgba 0 0 0 1); path := []; to_user := fun p => p |}.

Definition Rleb (a b : R) : bool := if Rle_dec a b then true else false.
Definition Rltb (a b : R) : bool := if Rlt_dec a b then true else false.

Definition least (x : R) (l : list R) : R := fold_right Rmin x l.
Definition greatest (x : R) (l : list R) : R := fold_right Rmax x l.

(** Inside the bounding box of the vertices; the box is half open, so a
    box of no width or no height holds no point. *)
Definition in_box (vs : list Point) (p : Point) : bool :=
  match vs with
  | [] => false
  | v :: vs' =>
      Rleb (least (fst v) (map fst vs')) (fst p)
      && Rltb (fst p) (greatest (fst v) (map fst vs'))
      && Rleb (least (snd v) (map snd vs')) (snd p)
      && Rltb (snd p) (greatest (snd v) (map snd vs'))
  end.

Definition enclosed (sp : Subpath) (p : Point) : bool :=
  in_box (vertices sp) (to_user_then sp p).

Definition rect_vertices (x y w h : Q) : list Point :=
  [(Q2R x, Q2R y); (Q2R x + Q2R w, Q2R y); (Q2R x + Q2R w, Q2R y + Q2R h);
   (Q2R x, Q2R y + Q2R h)].

(** The part of [x] past the last multiple of [w]: where a repeated
    source of width [w] is read. *)
Definition wrap (x : R) (w : Z) : R := x - IZR w * IZR (Int_part (x / IZR w)).

Definition source_at (s : Source) (p : Point) : Color :=
  match s with
  | Solid c => c
  | Surface img w h true => img (wrap (fst p) w, wrap (snd p) h)
  | Surface img w h false =>
      if Rleb 0 (fst p) && Rltb (fst p) (IZR w) && Rleb 0 (snd p) && Rltb (snd p) (IZR h)
      then img p
      else rgba 0 0 0 0
  end.

(** Extend the last sub-path by a vertex. *)
Definition add_vertex (c : Context) (v : Point) : list Subpath :=
  match path c with
  | sp :: rest =>
      {| vertices := (vertices sp ++ [v])%list; to_user_then := to_user_then sp |} :: rest
  | [] => [{| vertices := [v]; to_user_then := to_user c |}]
  end.

Definition cos_deg (theta : Z) : R := cos (IZR theta * PI / 180).
Definition sin_deg (theta : Z) : R := sin (IZR theta * PI / 180).

Definition step (c : Context) (o : op) : Context :=
  match o with
  | move_to x y =>
      {| target := target c; source := source c;
         path := {| vertices := [(Q2R x, Q2R y)]; to_user_then := to_user c |} :: path c;
         to_user := to_user c |}
  | line_to x y =>
      {| target := target c; source := source c;
         path := add_vertex c (Q2R x, Q2R y); to_user := to_user c |}
  | rectangle x y w h =>
      {| target := target c; source := source c;
         path := {| vertices := rect_vertices x y w h; to_user_then := to_user c |} :: path c;
         to_user := to_user c |}
  | set_source_rgb r g b =>
      {| target := target c; source := Solid (rgba r g b 1); path := path c;
         to_user := to_user c |}
  | set_source_surface img w h =>
      {| target := target c; source := Surface img w h false; path := path c;
         to_user := to_user c |}
  | set_extend_repeat =>
      {| target := target c;
         source := match source c with
                   | Surface img w h _ => Surface img w h true
                   | s => s
                   end;
         path := path c; to_user := to_user c |}
  | fill =>
      {| target := fun p => if existsb (fun sp => enclosed sp p) (path c)
                            then source_at (source c) p
                            else target c p;
         source := source c; path := []; to_user := to_user c |}
  | scale sx sy =>
      {| target := target c; source := source c; path := path c;
         to_user := fun p => let q := to_user c p in (fst q / Q2R sx, snd q / Q2R sy) |}
  | translate tx ty =>
      {| target := target c; source := source c; path := path c;
         to_user := fun p => let q := to_user c p in (fst q - Q2R tx, snd q - Q2R ty) |}
  | rotate_degrees theta =>
      {| target := target c; source := source c; path := path c;
         to_user := fun p =>
           let q := to_user c p in
           (fst q * cos_deg theta + snd q * sin_deg theta,
            - fst q * sin_deg theta + snd q * cos_deg theta) |}
  end.

Definition run (ops : list op) (c : Context) : Context := fold_left step ops c.

(** The surface a fresh context ends with. *)
Definition paint (ops : list op) : Image := target (run ops new_context).

(** The pixel in column [i], row [j] of the written image. *)
Definition pixel (img : Image) (i j : Z) : Color := img (IZR i + / 2, IZR j + / 2).

End Cairo.

(** [drawPattern(ctx)] *)
Definition drawPattern : list Cairo.op :=
  [Cairo.move_to 0 0; Cairo.line_to 0 1; Cairo.line_to 1 1; Cairo.line_to 1 0;
   Cairo.line_to 0 0; Cairo.set_source_rgb 1 1 1; Cairo.fill;
   Cairo.rectangle 0 0 (3 # 4) (3 # 4); Cairo.set_source_rgb 0 0 0; Cairo.fill].

(** [draw_rect(rect_info, color)] *)
Definition draw_rect (rect_info : Rect) (r g b : Q) : list Cairo.op :=
  [Cairo.rectangle (rect_x rect_info) (rect_y rect_info) (rect_length rect_info)
     (rect_height rect_info);
   Cairo.set_source_rgb r g b; Cairo.fill].

(** The tile [patternSurf], drawn by its own context. *)
Definition patternSurf (fineness_ : Z) : Cairo.Image :=
  Cairo.paint (Cairo.scale (inject_Z fineness_) (inject_Z fineness_) :: drawPattern).

Definition mo_ctr_x (fr : Frame) : Q := inject_Z (f_length fr) / 2.
Definition mo_ctr_y (fr : Frame) : Q := inject_Z (f_height fr) / 2.

(** [mo_info] *)
Definition mo_info (fr : Frame) : Rect :=
  mkRect (mo_ctr_x fr - f_mo_size fr / 2) (mo_ctr_y fr - inject_Z (f_mo_size_y fr) / 2)
         (f_mo_size fr) (inject_Z (f_mo_size_y fr)).

Definition draw_background (fr : Frame) : list Cairo.op :=
  [Cairo.move_to 0 0; Cairo.line_to 0 (inject_Z (f_height fr));
   Cairo.line_to (inject_Z (f_length fr)) (inject_Z (f_height fr));
   Cairo.line_to (inject_Z (f_length fr)) 0; Cairo.line_to 0 0;
   Cairo.set_source_surface (patternSurf (f_fineness fr)) (f_fineness fr) (f_fineness fr);
   Cairo.set_extend_repeat; Cairo.fill].

Definition draw_motion_object (fr : Frame) : list Cairo.op :=
  [Cairo.translate (mo_ctr_x fr) (mo_ctr_y fr); Cairo.rotate_degrees (f_theta fr);
   Cairo.translate (- mo_ctr_x fr) (- mo_ctr_y fr)]
  ++ draw_rect (mo_info fr) 0 0 0.

(** The calls of [make_frame] on [context], in order. *)
Definition make_frame_ops (fr : Frame) : list Cairo.op :=
  (draw_background fr
   ++ draw_rect (f_rect1 fr) (1 # 2) (1 # 2) (1 # 2)
   ++ draw_rect (f_rect2 fr) (1 # 2) (1 # 2) (1 # 2)
   ++ draw_motion_object fr)%list.

(** The image [make_frame] writes to the PNG file. *)
Definition render (fr : Frame) : Cairo.Image := Cairo.paint (make_frame_ops fr).

(** ** Simulated devices

    Deterministic stand-ins for the camera and the [detail] program, used
    to run the procedures on concrete inputs. *)

Module Sim.

Fixpoint count_ms (l : list Event) : nat :=
  match l with
  | [] => O
  | ConsoleCmd cmd :: l' => if String.eqb cmd "ms" then S (count_ms l') else count_ms l'
  | _ :: l' => count_ms l'
  end.

Definition ms_text (n : Z) : string := "1s: 0 percent 30s: " ++ Py.str n ++ " percent".

Definition detail_text (high low : Z) : string :=
  "HighDetail: " ++ Py.str high ++ "% LowDetail: " ++ Py.str low ++ "%".

(** A camera whose successive answers to [ms] carry the given readings
    (and 0 once they are used up); [detail] prints [text]. *)
Definition scripted (readings : list Z) (text : option string) : Device :=
  {| console_output := fun l _ => ms_text (nth (count_ms l) readings 0);
     popen_stdout := fun _ _ => text |}.

(** Twenty readings that settle on 5 with the twentieth sample only. *)
Definition late_readings : list Z :=
  [0; 1; 0; 1; 0; 1; 0; 1; 0; 1; 5; 5; 5; 5; 5; 5; 5; 5; 5; 5].

(** A camera whose answers never contain a score. *)
Definition silent : Device :=
  {| console_output := fun _ _ => "ok"; popen_stdout := fun _ _ => Some "no scores here" |}.

(** A camera that answers two polls with the score 5 and then stops
    answering with a score. *)
Definition fading : Device :=
  {| console_output := fun l _ =>
       if (count_ms l <? 2)%nat then ms_text 5 else "timeout";
     popen_stdout := fun _ _ => None |}.

(** The frame written last: the scene on display. *)
Fixpoint last_frame (l : list Event) (d : option Frame) : option Frame :=
  match l with
  | [] => d
  | WritePng _ fr :: l' => last_frame l' (Some fr)
  | _ :: l' => last_frame l' d
  end.

(** A device whose scores are fixed functions of the scene on display. *)
Definition scoring (motion high low : Frame -> Z) : Device :=
  {| console_output := fun l _ =>
       match last_frame l None with
       | Some fr => ms_text (motion fr)
       | None => "no scene"
       end;
     popen_stdout := fun l _ =>
       match last_frame l None with
       | Some fr => Some (detail_text (high fr) (low fr))
       | None => Some "no scene"
       end |}.

(** Motion grows with the size of the motion object, high detail falls
    with the tile edge, low detail grows with the area of the rectangles. *)
Definition motion_of (fr : Frame) : Z := Qfloor (f_mo_size fr / 96).
Definition high_of (fr : Frame) : Z := 100 - 5 * f_fineness fr.
Definition low_of (fr : Frame) : Z :=
  Qfloor ((rect_length (f_rect1 fr) + rect_length (f_rect2 fr)) / 30).

Definition camera : Device := scoring motion_of high_of low_of.

(** A camera on which the fineness alone does not reach a high-detail
    score of 60: the score falls by 9 with every step of the tile edge, and
    by 1 with every 100 pixels of the first rectangle. *)
Definition high_with_rect (fr : Frame) : Z :=
  100 - 9 * f_fineness fr - Qfloor (rect_length (f_rect1 fr) / 100).

Definition coarse_camera : Device := scoring motion_of high_with_rect low_of.

Definition start : St := mkSt (initial_self "D:\work" "rtsp://cam/stream" 2) [].

(** A datapath that has stored detail scores 42 and 17 before. *)
Definition scored : St :=
  mkSt (with_zattr low_detail 17 (with_zattr high_detail 42 (self start))) [].

(** A datapath in the middle of [check_motion], nine samples taken. *)
Definition polled : St :=
  mkSt (with_motion_list [5; 5; 5; 5; 5; 5; 5; 5; 5]
          (with_zattr sample_range 10 (self start))) [].

(** A controller about to run [make_motion] with motion target 10. *)
Definition aiming : St := mkSt (with_zattr motion_target 10 (self start)) [].

(** A controller about to run [make_motion] with a motion target that
    [camera] never reports: its scores end at 40, for the size 3840. *)
Definition out_of_reach : St := mkSt (with_zattr motion_target 100 (self start)) [].

(** A controller about to run [hd_delta]: the scene on display scores 55
    at fineness 9 and the target is 60. *)
Definition tuning : St :=
  mkSt (with_rattr rect2 default_rect
          (with_rattr rect1 default_rect
             (with_qattr mo_size 960
                (with_zattr high_detail_target 60
                   (with_zattr high_detail 55 (self start)))))) [].

End Sim.

(** ** Notions used in the statements *)

(** The attributes that sampling and scene assembly assign. *)
Definition measured (a : ZAttr) : bool :=
  match a with
  | mo_size_y | high_detail | low_detail | sample_range | motion_score => true
  | _ => false
  end.

(** [s'] differs from [s] at most in the measured attributes, the list of
    motion samples and the log. *)
Definition same_setup (s s' : St) : Prop :=
  filepath (self s') = filepath (self s) /\ rtsp (self s') = rtsp (self s)
  /\ qattrs (self s') = qattrs (self s) /\ rattrs (self s') = rattrs (self s)
  /\ rects (self s') = rects (self s) /\ poss (self s') = poss (self s)
  /\ lengths (self s') = lengths (self s)
  /\ forall a, measured a = false -> zattrs (self s') a = zattrs (self s) a.

(** The state a computation ends in, however it ends. *)
Definition final {A} (o : Outcome A) : St :=
  match o with
  | Ok _ s => s
  | Raise _ s => s
  | OutOfFuel s => s
  end.

(** [post m s Q E]: run from [s], [m] ends normally in a state and with a
    value satisfying [Q], or ends early (an exception, or the fuel ran out)
    in a state satisfying [E]. *)
Definition post {A} (m : M A) (s : St) (Q : A -> St -> Prop) (E : St -> Prop) : Prop :=
  match m s with
  | Ok a s' => Q a s'
  | Raise _ s' => E s'
  | OutOfFuel s' => E s'
  end.

(** However [m] ends, the state it ends in is related by [R] to the one
    it started from. *)
Definition safe (R : St -> St -> Prop) {A} (m : M A) : Prop :=
  forall s, post m s (fun _ s' => R s s') (R s).

(** [s'] extends the log of [s] by events that all satisfy [G]. *)
Definition appends (G : Event -> Prop) (s s' : St) : Prop :=
  exists evs, log s' = (log s ++ evs)%list /\ Forall G evs.

(** No video other than [scene.mp4] of the working directory [fp] is
    played by the event [e]. *)
Definition plays_only_scene (fp : string) (e : Event) : Prop :=
  forall file, e = SubprocessPopen (ffplay_command file) -> file = played_file fp.

(** From [s] to [s'] the working directory stays and nothing but
    [scene.mp4] is played. *)
Definition play_safe (s s' : St) : Prop :=
  filepath (self s') = filepath (self s)
  /\ appends (plays_only_scene (filepath (self s))) s s'.

(** What [check_detail] does with the result of one search: the score is
    stored when the pattern was found, and left alone when it was not. *)
Definition store_if_found (a : ZAttr) (m : option Z) (o : Self) : Self :=
  match m with
  | Some v => with_zattr a v o
  | None => o
  end.

(** The computation came to an end: the fuel did not run out. *)
Definition ended {A} (o : Outcome A) : Prop :=
  match o with
  | OutOfFuel _ => False
  | _ => True
  end.

(** An event that writes no frame. *)
Definition quiet (e : Event) : Prop :=
  match e with
  | WritePng _ _ => False
  | _ => True
  end.

(** From [s] to [s'] only measurements were taken: the setup is the same
    and no frame was written. *)
Definition measuring (s s' : St) : Prop := same_setup s s' /\ appends quiet s s'.

(** From [s] to [s'] at most the integer attributes in [zs] (and the
    measured ones), the number attributes in [qs] and, when [rs] holds, the
    rectangle data were assigned. *)
Definition changes_only (zs : ZAttr -> bool) (qs : QAttr -> bool) (rs : bool)
    (s s' : St) : Prop :=
  filepath (self s') = filepath (self s) /\ rtsp (self s') = rtsp (self s)
  /\ (forall a, zs a = false -> measured a = false ->
                zattrs (self s') a = zattrs (self s) a)
  /\ (forall a, qs a = false -> qattrs (self s') a = qattrs (self s) a)
  /\ (rs = false ->
      rattrs (self s') = rattrs (self s) /\ rects (self s') = rects (self s)
      /\ poss (self s') = poss (self s) /\ lengths (self s') = lengths (self s)).

(** What [make_motion] assigns besides its measurements. *)
Definition make_motion_z (a : ZAttr) : bool := false.
Definition make_motion_q (a : QAttr) : bool :=
  match a with mo_size => true | _ => false end.

(** What [hd_delta] assigns besides its measurements. *)
Definition hd_delta_z (a : ZAttr) : bool :=
  match a with fineness | direction => true | _ => false end.
Definition hd_delta_q (a : QAttr) : bool := false.

(** What [ld_rect] assigns besides its measurements. *)
Definition ld_rect_z (a : ZAttr) : bool :=
  match a with
  | height | box_motion_margin | rect1_x_pos | length_2 => true
  | _ => false
  end.
Definition ld_rect_q (a : QAttr) : bool :=
  match a with x_limit | length_1 | rect2_x_pos => true | _ => false end.

(** A frame with the default background tile of [make_scene] (edge 6)
    and no auxiliary rectangle. *)
Definition plain_frame (e : Event) : Prop :=
  match e with
  | WritePng _ fr =>
      f_fineness fr = 6 /\ f_rect1 fr = default_rect /\ f_rect2 fr = default_rect
  | _ => True
  end.

(** Every integer attribute but the motion target. *)
Definition but_motion_target (a : ZAttr) : bool :=
  match a with motion_target => false | _ => true end.

Definition any_q (a : QAttr) : bool := true.

(** From [s] to [s'] the motion target and the working directory stay. *)
Definition keeps_motion_target : St -> St -> Prop :=
  changes_only but_motion_target any_q true.

(** From [s] to [s'] the integer attribute [a] is not assigned. *)
Definition keeps_z (a : ZAttr) (s s' : St) : Prop :=
  zattrs (self s') a = zattrs (self s) a.





(** The text [s] shows the score [v] in the format of the pattern [p]:
    somewhere in [s] the prefix of [p] is followed by a run of digits with
    decimal value [v] and by the suffix of [p]. *)
Definition shows_score (p : Py.pattern) (s : string) (v : Z) : Prop :=
  exists before w1 ds w2 after,
    list_ascii_of_string s = (before ++ w1 ++ ds ++ w2 ++ after)%list
    /\ Py.atoms_match (Py.pre p) w1
    /\ ds <> [] /\ Forall (fun c => Py.is_digit c = true) ds
    /\ Py.atoms_match (Py.post p) w2
    /\ Py.int_of_digits ds = v.

(** [hoare P I m J]: run from a state that satisfies [I], the computation
    [m] returns in a state that satisfies [J], or is left by an exception
    that satisfies [P], or runs out of fuel. *)
Definition hoare (P : Exn -> Prop) (I : St -> Prop) {A} (m : M A) (J : St -> Prop) : Prop :=
  forall s, I s ->
    match m s with
    | Ok _ s' => J s'
    | Raise e _ => P e
    | OutOfFuel _ => True
    end.






(** The state in which a round of [make_motion] starts to sample: the
    size [mo] is assigned, the plain scene of that size is assembled as
    [scene.mp4], the player is started on it and 30 seconds have passed. *)
Definition motion_scene_shown (mo : Q) (hr vr : Z) (s : St) : St :=
  let msy := Py.int (inject_Z hr * (1 # 10)) in
  mkSt (with_zattr mo_size_y msy (with_qattr mo_size mo (self s)))
       (log s
        ++ scene_events (filepath (self s)) mo hr vr msy 6 default_rect default_rect "scene"
        ++ [SubprocessPopen (play_command (filepath (self s))); Sleep 30])%list.

(** How a round of [make_motion] that sampled [score] at the size [mo]
    goes on: it ends the loop, or one bound becomes [mo]. *)
Definition next_bounds (x1 x2 mo : Q) (score target : Z) : Q * Q + unit :=
  if score =? target then inr tt
  else if score >? target then inl (x1, mo)
  else inl (mo, x2).

(** Every answer of the camera to [ms] holds a motion score. *)
Definition answers_motion (dev : Device) : Prop :=
  forall l, Py.contains_match motion_pattern (console_output dev l "ms").

(** The state in which a round of [hd_delta] compares the deltas: the
    fineness [f] is assigned, the scene with that tile edge and the
    rectangles [r1] and [r2] is assembled as [scene.mp4], played for 5
    seconds and captured, and the scores that the answer [text] of the
    detail tool holds are stored. *)
Definition detail_scene_sampled (f : Z) (mo : Q) (hr vr : Z) (r1 r2 : Rect)
    (text : string) (s : St) : St :=
  let msy := Py.int (inject_Z hr * (1 # 10)) in
  mkSt (store_if_found low_detail (Py.re_search low_pattern text)
          (store_if_found high_detail (Py.re_search high_pattern text)
             (with_zattr mo_size_y msy (with_zattr fineness f (self s)))))
       (log s
        ++ scene_events (filepath (self s)) mo hr vr msy f r1 r2 "scene"
        ++ [SubprocessPopen (play_command (filepath (self s))); Sleep 5;
            SubprocessRun (capture_command (rtsp (self s)) (filepath (self s)));
            SubprocessPopen detail_command])%list.

(** The log at the moment the detail tool is started in that round. *)
Definition detail_scene_captured (f : Z) (mo : Q) (hr vr : Z) (r1 r2 : Rect)
    (s : St) : list Event :=
  let msy := Py.int (inject_Z hr * (1 # 10)) in
  (log s
   ++ scene_events (filepath (self s)) mo hr vr msy f r1 r2 "scene"
   ++ [SubprocessPopen (play_command (filepath (self s))); Sleep 5;
       SubprocessRun (capture_command (rtsp (self s)) (filepath (self s)))])%list.

(** How a probe of [hd_delta] that found the delta [delta] goes on, from
    the state [s2] after sampling: it fixes the direction and ends the
    first loop, or probes again. *)
Definition probe_outcome (delta delta_i : Z) (s2 : St) : Outcome (unit + Z) :=
  if delta >? delta_i then
    Ok (inr delta) (mkSt (with_zattr direction (-1) (self s2)) (log s2))
  else if delta <? delta_i then
    Ok (inr delta) (mkSt (with_zattr direction 1 (self s2)) (log s2))
  else Ok (inl tt) s2.

(** How a step of [hd_delta] that moved the fineness from [f] by [d] and
    found the delta [delta] goes on: it steps again, or moves back by [d]
    and ends the second loop. *)
Definition step_outcome (delta previous_delta f d : Z) (s2 : St) : Outcome (Z + unit) :=
  if delta <? previous_delta then Ok (inl delta) s2
  else if delta >? previous_delta then
    Ok (inr tt) (mkSt (with_zattr fineness (f + d + - d) (self s2)) (log s2))
  else Ok (inl delta) s2.

(** Every [ms] command in the log [l] was answered with a motion score:
    the console's answer at that point of the log holds the pattern. *)
Definition scored (dev : Device) (l : list Event) : Prop :=
  forall l0 rest,
    l = (l0 ++ ConsoleCmd "ms" :: rest)%list ->
    Py.contains_match motion_pattern (console_output dev l0 "ms").

(** The log [l] ends with an [ms] command whose answer holds no motion
    score; every earlier one was answered with a score. *)
Definition unscored_last (dev : Device) (l : list Event) : Prop :=
  exists l0,
    l = (l0 ++ [ConsoleCmd "ms"])%list /\ scored dev l0
    /\ ~ Py.contains_match motion_pattern (console_output dev l0 "ms").

(** A run does not go on after an [ms] answer without a score: it ends
    with every answer scored, or with an [AttributeError] right after the
    first answer that holds none. *)
Definition halted {A} (dev : Device) (o : Outcome A) : Prop :=
  match o with
  | Ok _ s' => scored dev (log s')
  | OutOfFuel s' => scored dev (log s')
  | Raise e s' => scored dev (log s') \/ (e = AttributeError /\ unscored_last dev (log s'))
  end.

Definition halts_unscored (dev : Device) {A} (m : M A) : Prop :=
  forall s, scored dev (log s) -> halted dev (m s).

(** From [s] to [s'] nothing but the integer attribute [a] is assigned:
    every other attribute, the lists and the motion samples are as before. *)
Definition assigns_only_z (a : ZAttr) (s s' : St) : Prop :=
  filepath (self s') = filepath (self s) /\ rtsp (self s') = rtsp (self s)
  /\ qattrs (self s') = qattrs (self s) /\ rattrs (self s') = rattrs (self s)
  /\ motion_list (self s') = motion_list (self s)
  /\ rects (self s') = rects (self s) /\ poss (self s') = poss (self s)
  /\ lengths (self s') = lengths (self s)
  /\ forall a', a' <> a -> zattrs (self s') a' = zattrs (self s) a'.

(** * Properties *)

(** ** Reasoning about computations *)

Lemma post_ret {A} (a : A) s (Q : A -> St -> Prop) E : Q a s -> post (ret a) s Q E.
Proof. exact (fun H => H). Qed.

Lemma post_raise {A} e s (Q : A -> St -> Prop) (E : St -> Prop) :
  E s -> post (raise e) s Q E.
Proof. exact (fun H => H). Qed.

Lemma post_bind {A B} (m : M A) (k : A -> M B) s Q E :
  post m s (fun a s' => post (k a) s' Q E) E -> post (bind m k) s Q E.
Proof.
  unfold post, bind. destruct (m s) as [a s'|e s'|s']; auto.
Qed.

Lemma post_weaken {A} (m : M A) s (Q Q' : A -> St -> Prop) (E E' : St -> Prop) :
  post m s Q E ->
  (forall a s', Q a s' -> Q' a s') -> (forall s', E s' -> E' s') ->
  post m s Q' E'.
Proof.
  unfold post. destruct (m s); auto.
Qed.

Lemma post_ok {A} (m : M A) s Q E a s' : post m s Q E -> m s = Ok a s' -> Q a s'.
Proof. unfold post. intros H Hm. rewrite Hm in H. exact H. Qed.

Lemma post_final {A} (m : M A) s (P : St -> Prop) :
  post m s (fun _ s' => P s') P -> P (final (m s)).
Proof. unfold post. destruct (m s); auto. Qed.

Lemma post_gets {A} (f : Self -> A) s Q E : Q (f (self s)) s -> post (gets f) s Q E.
Proof. exact (fun H => H). Qed.

Lemma post_modify f s (Q : unit -> St -> Prop) E :
  Q tt (mkSt (f (self s)) (log s)) -> post (modify f) s Q E.
Proof. exact (fun H => H). Qed.

Lemma post_emit e s (Q : unit -> St -> Prop) E :
  Q tt (mkSt (self s) (log s ++ [e])) -> post (emit e) s Q E.
Proof. exact (fun H => H). Qed.

Lemma post_attr {A} (f : Self -> option A) s (Q : A -> St -> Prop) (E : St -> Prop) :
  (forall v, f (self s) = Some v -> Q v s) -> E s -> post (attr f) s Q E.
Proof.
  unfold post, attr. intros HQ HE. destruct (f (self s)); auto.
Qed.

Lemma post_item {A} (l : list A) i s (Q : A -> St -> Prop) (E : St -> Prop) :
  (forall v, Py.index l i = Some v -> Q v s) -> E s -> post (item l i) s Q E.
Proof.
  unfold post, item. intros HQ HE. destruct (Py.index l i); simpl; auto.
Qed.

Lemma post_while {X B} (body : X -> M (X + B)) (I : X -> St -> Prop)
    (Q : B -> St -> Prop) (E : St -> Prop) :
  (forall x s, I x s -> E s) ->
  (forall x s, I x s ->
     post (body x) s
       (fun r s' => match r with inl x' => I x' s' | inr b => Q b s' end) E) ->
  forall fuel x s, I x s -> post (while_true fuel body x) s Q E.
Proof.
  intros HE Hbody. induction fuel as [|fuel IH]; intros x s HI.
  - exact (HE x s HI).
  - simpl. apply post_bind.
    apply post_weaken with (1 := Hbody x s HI); auto.
    intros [x'|b] s' H; [apply IH; exact H | exact H].
Qed.

Lemma bind_ok {A B} (m : M A) (k : A -> M B) s b s2 :
  bind m k s = Ok b s2 -> exists a s1, m s = Ok a s1 /\ k a s1 = Ok b s2.
Proof.
  unfold bind. destruct (m s) as [a s1|e s1|s1]; try discriminate.
  intros H. exists a, s1. auto.
Qed.

Lemma appends_refl G s : appends G s s.
Proof. exists []. split; [now rewrite app_nil_r | constructor]. Qed.

Lemma appends_trans G s1 s2 s3 : appends G s1 s2 -> appends G s2 s3 -> appends G s1 s3.
Proof.
  intros [e1 [H1 F1]] [e2 [H2 F2]]. exists (e1 ++ e2)%list. split.
  - rewrite H2, H1. now rewrite app_assoc.
  - apply Forall_app; auto.
Qed.

Lemma appends_one (G : Event -> Prop) s e o :
  G e -> appends G s (mkSt o (log s ++ [e])).
Proof. intros H. exists [e]. split; [reflexivity | constructor; auto]. Qed.

Lemma appends_same_log G s o : appends G s (mkSt o (log s)).
Proof. exists []. split; [simpl; now rewrite app_nil_r | constructor]. Qed.

Lemma attr_z_run a s v : zattrs (self s) a = Some v -> attr_z a s = Ok v s.
Proof. unfold attr_z, attr. intros ->. reflexivity. Qed.

Lemma attr_q_run a s v : qattrs (self s) a = Some v -> attr_q a s = Ok v s.
Proof. unfold attr_q, attr. intros ->. reflexivity. Qed.

Lemma attr_r_run a s v : rattrs (self s) a = Some v -> attr_r a s = Ok v s.
Proof. unfold attr_r, attr. intros ->. reflexivity. Qed.

Lemma bind_run {A B} (m : M A) (k : A -> M B) s a s' :
  m s = Ok a s' -> bind m k s = k a s'.
Proof. unfold bind. intros ->. reflexivity. Qed.

Lemma attr_ok {A} (f : Self -> option A) s v s' :
  attr f s = Ok v s' -> s' = s /\ f (self s) = Some v.
Proof.
  unfold attr. destruct (f (self s)); intros H; inversion H; subst; auto.
Qed.

Lemma gets_ok {A} (f : Self -> A) s v s' : gets f s = Ok v s' -> s' = s /\ v = f (self s).
Proof. unfold gets. intros H; inversion H; auto. Qed.

Lemma item_ok {A} (l : list A) i s v s' :
  item l i s = Ok v s' -> s' = s /\ Py.index l i = Some v.
Proof.
  unfold item. destruct (Py.index l i); intros H; inversion H; subst; auto.
Qed.

Lemma ret_ok {A} (a : A) s v s' : ret a s = Ok v s' -> s' = s /\ v = a.
Proof. unfold ret. intros H; inversion H; auto. Qed.

(** *** Relations that every step of a computation keeps *)

Section Safe.

Context (R : St -> St -> Prop) {HR : PreOrder R}.

Lemma safe_ret {A} (a : A) : safe R (ret a).
Proof. intros s. apply post_ret. reflexivity. Qed.

Lemma safe_raise {A} e : safe R (@raise A e).
Proof. intros s. apply post_raise. reflexivity. Qed.

Lemma safe_bind {A B} (m : M A) (k : A -> M B) :
  safe R m -> (forall a, safe R (k a)) -> safe R (bind m k).
Proof.
  intros Hm Hk s. apply post_bind. apply post_weaken with (1 := Hm s); auto.
  intros a s1 H1. apply post_weaken with (1 := Hk a s1); intros; etransitivity; eauto.
Qed.

Lemma safe_gets {A} (f : Self -> A) : safe R (gets f).
Proof. intros s. apply post_gets. reflexivity. Qed.

Lemma safe_attr {A} (f : Self -> option A) : safe R (attr f).
Proof. intros s. apply post_attr; intros; reflexivity. Qed.

Lemma safe_item {A} (l : list A) i : safe R (item l i).
Proof. intros s. apply post_item; intros; reflexivity. Qed.

Lemma safe_for_each {A} (l : list A) body :
  (forall a, safe R (body a)) -> safe R (for_each l body).
Proof.
  intros Hb. induction l as [|a l IH]; simpl.
  - apply safe_ret.
  - apply safe_bind; auto.
Qed.

Lemma safe_while {X B} (body : X -> M (X + B)) :
  (forall x, safe R (body x)) -> forall fuel x, safe R (while_true fuel body x).
Proof.
  intros Hb. induction fuel as [|fuel IH]; intros x; simpl.
  - intros s. unfold post. reflexivity.
  - apply safe_bind; [apply Hb|]. intros [x'|b]; [apply IH | apply safe_ret].
Qed.

Lemma safe_final {A} (m : M A) s : safe R m -> R s (final (m s)).
Proof. intros H. specialize (H s). unfold post in H. destruct (m s); exact H. Qed.

End Safe.

(** Take a computation apart along its binds, branches and loops. *)
Ltac safe_step :=
  lazymatch goal with
  | |- PreOrder _ => typeclasses eauto
  | |- safe _ (bind _ _) => apply safe_bind; [ .. | intros ? ]
  | |- safe _ (ret _) => apply safe_ret
  | |- safe _ (raise _) => apply safe_raise
  | |- safe _ (attr _) => apply safe_attr
  | |- safe _ (attr_z _) => apply safe_attr
  | |- safe _ (attr_q _) => apply safe_attr
  | |- safe _ (attr_r _) => apply safe_attr
  | |- safe _ (gets _) => apply safe_gets
  | |- safe _ (item _ _) => apply safe_item
  | |- safe _ (for_each _ _) => apply safe_for_each; [ .. | intros ? ]
  | |- safe _ (while_true _ _ _) => apply safe_while; [ .. | intros ? ]
  | |- safe _ (if ?b then _ else _) => destruct b
  | |- safe _ (match ?x with _ => _ end) => destruct x
  end.

#[global] Instance same_setup_preorder : PreOrder same_setup.
Proof.
  split.
  - intros s. unfold same_setup. intuition.
  - intros s1 s2 s3 H1 H2. unfold same_setup in *.
    destruct H1 as (a1 & a2 & a3 & a4 & a5 & a6 & a7 & a8).
    destruct H2 as (b1 & b2 & b3 & b4 & b5 & b6 & b7 & b8).
    repeat split; try congruence. intros a Ha. rewrite b8, a8; auto.
Qed.

Lemma safe_setup_set_z a v : measured a = true -> safe same_setup (set_z a v).
Proof.
  intros Ha s. apply post_modify. unfold same_setup. cbn. repeat split.
  intros a' Ha'. unfold upd.
  destruct (Pos.eqb_spec (ZAttr_code a') (ZAttr_code a)) as [E|E]; auto.
  destruct a, a'; try discriminate; reflexivity.
Qed.

Lemma safe_setup_emit e : safe same_setup (emit e).
Proof. intros s. apply post_emit. unfold same_setup. cbn. intuition. Qed.

Lemma safe_setup_motion_list l : safe same_setup (modify (with_motion_list l)).
Proof. intros s. apply post_modify. unfold same_setup. cbn. intuition. Qed.

Lemma safe_setup_console dev c : safe same_setup (execute_console_cmd dev c).
Proof. intros s. unfold post, execute_console_cmd, same_setup. cbn. intuition. Qed.

Lemma safe_setup_popen dev c : safe same_setup (popen_communicate dev c).
Proof. intros s. unfold post, popen_communicate, same_setup. cbn. intuition. Qed.

Ltac safe_setup_leaf :=
  first [ apply safe_setup_emit | apply safe_setup_console | apply safe_setup_popen
        | apply safe_setup_motion_list
        | apply safe_setup_set_z; reflexivity ].

Lemma safe_setup_make_scene mo l h f r1 r2 name :
  safe same_setup (make_scene mo l h f r1 r2 name).
Proof.
  unfold make_scene, make_frame.
  repeat first [safe_step | safe_setup_leaf].
Qed.

Lemma safe_setup_pscc dev fuel w p : safe same_setup (pscc dev fuel w p).
Proof.
  unfold pscc, play_scene, capture_frames, check_detail, check_motion,
    check_motion_body.
  repeat first [safe_step | safe_setup_leaf].
Qed.

(** ** Scene assembly *)

Lemma for_each_make_frame mo len hgt fin r1 r2 (label : Z -> string) msy l s :
  zattrs (self s) mo_size_y = Some msy ->
  for_each l (fun i => make_frame mo len hgt fin r1 r2 i (label i)) s =
  Ok tt (mkSt (self s)
           (log s ++ map (fun i => WritePng (frame_file (filepath (self s)) (label i))
                                     (mkFrame i len hgt mo msy fin r1 r2)) l)).
Proof.
  intros Hm. revert s Hm. induction l as [|i l IH]; intros s Hm.
  - simpl. rewrite app_nil_r. destruct s; reflexivity.
  - cbn [for_each map]. unfold make_frame at 1.
    rewrite (bind_run _ _ s tt
               (mkSt (self s)
                  (log s ++ [WritePng (frame_file (filepath (self s)) (label i))
                               (mkFrame i len hgt mo msy fin r1 r2)]))).
    + rewrite IH by exact Hm. cbn [self log]. rewrite <- app_assoc. reflexivity.
    + rewrite (bind_run _ _ _ _ _ (attr_z_run _ _ _ Hm)). reflexivity.
Qed.

(** The loop [for i in range(0, 181, 9)] with the labels [str(int(i/9))]
    goes through [frame_schedule]. *)
Lemma frame_schedule_range :
  map (fun i => (i, Py.str (Py.int (inject_Z i / 9)))) (Py.range 0 181 9)
  = frame_schedule.
Proof. reflexivity. Qed.

Lemma make_scene_run mo fin r1 r2 name s hr vr :
  zattrs (self s) hor_res = Some hr -> zattrs (self s) ver_res = Some vr ->
  make_scene mo None None fin r1 r2 name s =
  Ok tt (mkSt (with_zattr mo_size_y (Py.int (inject_Z hr * (1 # 10))) (self s))
           (log s ++ scene_events (filepath (self s)) mo hr vr
                       (Py.int (inject_Z hr * (1 # 10))) fin r1 r2 name)).
Proof.
  intros Hh Hv. unfold make_scene.
  rewrite (bind_run _ _ _ _ _ (attr_z_run _ _ _ Hh)).
  unfold set_z at 1. unfold modify at 1. unfold bind at 1.
  set (s1 := mkSt _ (log s)).
  assert (H1 : zattrs (self s1) hor_res = Some hr) by exact Hh.
  assert (H2 : zattrs (self s1) ver_res = Some vr) by exact Hv.
  rewrite (bind_run _ _ _ _ _ (attr_z_run _ _ _ H1)).
  rewrite (bind_run _ _ _ _ _ (attr_z_run _ _ _ H2)).
  erewrite bind_run by (apply for_each_make_frame; reflexivity).
  unfold scene_events. rewrite <- frame_schedule_range, map_map.
  unfold bind, gets, emit. subst s1. cbn [self log filepath with_zattr fst snd].
  rewrite <- !app_assoc. reflexivity.
Qed.

(** C6. Scene assembly ([make_scene]) draws exactly 21 frames, one per
    rotation angle 0, 9, ..., 180 in ascending order, labelled 0..20;
    encodes them with a frame rate of 50; and then runs one command that
    reads the encoded video with [-stream_loop 1000], cuts the output at
    [-t 03:00] (three minutes, which 1001 plays of 21 frames at 50 frames a
    second exceed) and writes it under the supplied scene name. *)
Theorem make_scene_assembles_scene mo fin r1 r2 name s hr vr :
  zattrs (self s) hor_res = Some hr -> zattrs (self s) ver_res = Some vr ->
  let fp := filepath (self s) in
  let msy := Py.int (inject_Z hr * (1 # 10)) in
  make_scene mo None None fin r1 r2 name s
  = Ok tt (mkSt (with_zattr mo_size_y msy (self s))
             (log s
              ++ map (fun tl => WritePng (fp ++ "\bw_frames\" ++ snd tl ++ ".png")
                                  (mkFrame (fst tl) hr vr mo msy fin r1 r2))
                   frame_schedule
              ++ [FfmpegRun (fp ++ "\bw_frames\%d.png") 50
                    (fp ++ "\bw_frames\video.mp4") "yuv420p" "fatal" true;
                  SubprocessRun
                    ("ffmpeg -t 03:00 -loglevel fatal -y -stream_loop 1000 -i "
                     ++ dq ++ fp ++ "\bw_frames\video.mp4" ++ dq ++ " -c copy "
                     ++ dq ++ (fp ++ "\bw_frames\" ++ name ++ ".mp4") ++ dq)])%list)
  /\ map fst frame_schedule = map (fun k => 9 * Z.of_nat k) (seq 0 21)
  /\ map snd frame_schedule = map (fun k => Py.str (Z.of_nat k)) (seq 0 21)
  /\ List.length frame_schedule = 21%nat
  /\ (3 * 60 <= inject_Z (Z.of_nat (List.length frame_schedule)) / 50 * (1 + 1000))%Q.
Proof.
  intros Hh Hv fp msy. split; [|repeat split].
  - rewrite (make_scene_run _ _ _ _ _ _ _ _ Hh Hv). reflexivity.
  - vm_compute. discriminate.
Qed.

Lemma make_scene_assembles_scene_witness :
  let fp := "D:\work" in
  make_scene 600 None None 6 default_rect default_rect "scene" Sim.start
  = Ok tt (mkSt (with_zattr mo_size_y 384 (self Sim.start))
             (map (fun tl => WritePng (fp ++ "\bw_frames\" ++ snd tl ++ ".png")
                               (mkFrame (fst tl) 3840 2160 600 384 6 default_rect
                                  default_rect))
                frame_schedule
              ++ [FfmpegRun (fp ++ "\bw_frames\%d.png") 50
                    (fp ++ "\bw_frames\video.mp4") "yuv420p" "fatal" true;
                  SubprocessRun
                    ("ffmpeg -t 03:00 -loglevel fatal -y -stream_loop 1000 -i "
                     ++ dq ++ fp ++ "\bw_frames\video.mp4" ++ dq ++ " -c copy "
                     ++ dq ++ (fp ++ "\bw_frames\scene.mp4") ++ dq)])%list).
Proof.
  exact (proj1 (make_scene_assembles_scene 600 6 default_rect default_rect "scene"
                  Sim.start 3840 2160 eq_refl eq_refl)).
Defined.

(** ** What is played *)

Lemma append_one_inj (a b : string) (c : ascii) :
  a ++ String c "" = b ++ String c "" -> a = b.
Proof.
  revert b. induction a as [|x a IH]; intros [|y b] H; simpl in H.
  - reflexivity.
  - inversion H as [[Hc Hb]]. destruct b; discriminate.
  - inversion H as [[Hc Ha]]. destruct a; discriminate.
  - inversion H as [[Hc Hab]]. f_equal. apply IH. exact Hab.
Qed.

Lemma append_inj_l (p a b : string) : p ++ a = p ++ b -> a = b.
Proof.
  induction p as [|x p IH]; simpl; intros H; [exact H|].
  inversion H. auto.
Qed.

Lemma ffplay_command_inj a b : ffplay_command a = ffplay_command b -> a = b.
Proof.
  unfold ffplay_command. intros H.
  apply append_inj_l in H. apply append_inj_l in H.
  unfold dq in H. apply append_one_inj in H. exact H.
Qed.

Lemma detail_is_not_ffplay file : detail_command <> ffplay_command file.
Proof. unfold detail_command, ffplay_command. simpl. discriminate. Qed.

Lemma append_assoc_s (a b c : string) : (a ++ b) ++ c = a ++ (b ++ c).
Proof. induction a as [|x a IH]; simpl; [reflexivity | now rewrite IH]. Qed.

(** Only the scene named [scene] is the file that is played. *)
Lemma scene_file_played fp name : scene_file fp name = played_file fp -> name = "scene".
Proof.
  unfold scene_file, played_file. intros H.
  apply append_inj_l in H.
  change ("\bw_frames\scene.mp4") with ("\bw_frames\" ++ "scene.mp4") in H.
  apply append_inj_l in H.
  change "scene.mp4" with ("scene.mp" ++ "4") in H.
  change ".mp4" with (".mp" ++ "4") in H. rewrite <- append_assoc_s in H.
  apply append_one_inj in H.
  change "scene.mp" with ("scene.m" ++ "p") in H.
  change ".mp" with (".m" ++ "p") in H. rewrite <- append_assoc_s in H.
  apply append_one_inj in H.
  change "scene.m" with ("scene." ++ "m") in H.
  change ".m" with ("." ++ "m") in H. rewrite <- append_assoc_s in H.
  apply append_one_inj in H.
  change "scene." with ("scene" ++ ".") in H.
  apply append_one_inj in H. exact H.
Qed.

#[global] Instance play_safe_preorder : PreOrder play_safe.
Proof.
  split.
  - intros s. split; [reflexivity | apply appends_refl].
  - intros s1 s2 s3 [F1 A1] [F2 A2]. split; [congruence|].
    rewrite F1 in A2. eapply appends_trans; eauto.
Qed.

Lemma safe_play_modify f :
  (forall o, filepath (f o) = filepath o) -> safe play_safe (modify f).
Proof.
  intros Hf s. apply post_modify. split; [apply Hf | apply appends_same_log].
Qed.

Lemma safe_play_emit e :
  (forall fp, plays_only_scene fp e) -> safe play_safe (emit e).
Proof.
  intros He s. apply post_emit. split; [reflexivity | apply appends_one, He].
Qed.

Lemma safe_play_console dev c : safe play_safe (execute_console_cmd dev c).
Proof.
  intros s. unfold post, execute_console_cmd. split; [reflexivity|].
  apply appends_one. intros file H. discriminate.
Qed.

Lemma safe_play_detail dev : safe play_safe (popen_communicate dev detail_command).
Proof.
  intros s. unfold post, popen_communicate. split; [reflexivity|].
  apply appends_one. intros file H.
  exfalso. apply (detail_is_not_ffplay file). congruence.
Qed.

Lemma safe_play_play_scene : safe play_safe play_scene.
Proof.
  intros s. unfold post, play_scene, bind, gets, emit. split; [reflexivity|].
  apply appends_one. intros file H.
  symmetry. apply ffplay_command_inj. unfold play_command in H. congruence.
Qed.

Ltac safe_play_leaf :=
  first
    [ apply safe_play_play_scene | apply safe_play_console | apply safe_play_detail
    | apply safe_play_modify; intros; reflexivity
    | apply safe_play_emit; intros ? ? ?; discriminate ].

Ltac safe_play :=
  repeat first [ safe_step | progress unfold set_z, set_q, set_r | safe_play_leaf ].

Lemma safe_play_make_scene mo l h f r1 r2 name :
  safe play_safe (make_scene mo l h f r1 r2 name).
Proof. unfold make_scene, make_frame. safe_play. Qed.

Lemma safe_play_pscc dev fuel w p : safe play_safe (pscc dev fuel w p).
Proof.
  unfold pscc, capture_frames, check_detail, check_motion, check_motion_body.
  safe_play.
Qed.

Create HintDb play.

#[local] Hint Resolve safe_play_make_scene safe_play_pscc : play.

Ltac safe_play_proc :=
  repeat first
    [ solve [auto with play nocore]
    | safe_step
    | progress unfold set_z, set_q, set_r
    | safe_play_leaf ].

Lemma safe_play_make_scene_self r1 r2 name : safe play_safe (make_scene_self r1 r2 name).
Proof. unfold make_scene_self. safe_play_proc. Qed.

#[local] Hint Resolve safe_play_make_scene_self : play.

Lemma safe_play_make_motion dev fuel : safe play_safe (make_motion dev fuel).
Proof. unfold make_motion, make_motion_body. safe_play_proc. Qed.

Lemma safe_play_hd_delta dev fuel : safe play_safe (hd_delta dev fuel).
Proof. unfold hd_delta, hd_probe_body, hd_step_body, high_delta. safe_play_proc. Qed.

Lemma safe_play_tune_rect dev fuel n : safe play_safe (tune_rect dev fuel n).
Proof. unfold tune_rect. safe_play_proc. Qed.

#[local] Hint Resolve safe_play_make_motion safe_play_hd_delta safe_play_tune_rect : play.

Lemma safe_play_ld_rect dev fuel : safe play_safe (ld_rect dev fuel).
Proof.
  unfold ld_rect, ld_rect_setup, bisection, bisection_body, right_edge.
  safe_play_proc.
Qed.

#[local] Hint Resolve safe_play_ld_rect : play.

Lemma safe_play_high_detail_scenes dev fuel mt :
  safe play_safe (high_detail_scenes dev fuel mt).
Proof.
  unfold high_detail_scenes, high_rect_body, make_plain_scene. safe_play_proc.
Qed.

Lemma safe_play_low_detail_scenes dev fuel mt :
  safe play_safe (low_detail_scenes dev fuel mt).
Proof.
  unfold low_detail_scenes, low_fineness_body, make_plain_scene. safe_play_proc.
Qed.

Lemma safe_play_medium_detail_scenes dev fuel mt :
  safe play_safe (medium_detail_scenes dev fuel mt).
Proof. unfold medium_detail_scenes, make_plain_scene. safe_play_proc. Qed.

Lemma pscc_starts_by_playing dev fuel w p s :
  exists rest,
    log (final (pscc dev fuel w p s))
    = (log s ++ SubprocessPopen (ffplay_command (played_file (filepath (self s))))
         :: Sleep w :: rest)%list
    /\ Forall (plays_only_scene (filepath (self s))) rest.
Proof.
  unfold pscc.
  set (m := if String.eqb p "detail" then _ else _).
  set (s2 := mkSt (self s)
               ((log s ++ [SubprocessPopen (play_command (filepath (self s)))])
                ++ [Sleep w])).
  assert (Hrun : final ((play_scene;; emit (Sleep w);; m) s) = final (m s2)).
  { cbv [bind play_scene gets emit]. cbn [self log]. reflexivity. }
  rewrite Hrun.
  assert (Hm : safe play_safe m).
  { subst m. unfold capture_frames, check_detail, check_motion, check_motion_body.
    safe_play. }
  destruct (safe_final play_safe m s2 Hm) as [_ [evs [Hl Hg]]].
  exists evs. split; [|exact Hg].
  rewrite Hl. subst s2. cbn [log]. rewrite <- !app_assoc. reflexivity.
Qed.

(** C10. Every invocation of [pscc] starts by playing the fixed file
    [bw_frames\scene.mp4] of the working directory, whatever its arguments;
    neither it nor any of the three scenario procedures ever plays another
    file; and a scene assembled under a name other than [scene], such as
    the final [high_N%], [low_N%] and [medium_N%], is not that file. *)
Theorem pscc_always_plays_scene_mp4 dev fuel s :
  let fp := filepath (self s) in
  (forall wait_time parameter,
     exists rest,
       log (final (pscc dev fuel wait_time parameter s))
       = (log s ++ SubprocessPopen (ffplay_command (fp ++ "\bw_frames\scene.mp4"))
            :: Sleep wait_time :: rest)%list
       /\ Forall (plays_only_scene fp) rest)
  /\ (forall mt, appends (plays_only_scene fp) s (final (high_detail_scenes dev fuel mt s)))
  /\ (forall mt, appends (plays_only_scene fp) s (final (low_detail_scenes dev fuel mt s)))
  /\ (forall mt, appends (plays_only_scene fp) s (final (medium_detail_scenes dev fuel mt s)))
  /\ (forall name, name <> "scene" -> scene_file fp name <> fp ++ "\bw_frames\scene.mp4")
  /\ (forall mt, "high_" ++ Py.str mt ++ "%" <> "scene"
                 /\ "low_" ++ Py.str mt ++ "%" <> "scene"
                 /\ "medium_" ++ Py.str mt ++ "%" <> "scene").
Proof.
  intros fp. repeat split.
  - intros w p. apply pscc_starts_by_playing.
  - intros mt. apply (safe_final play_safe _ s (safe_play_high_detail_scenes dev fuel mt)).
  - intros mt. apply (safe_final play_safe _ s (safe_play_low_detail_scenes dev fuel mt)).
  - intros mt. apply (safe_final play_safe _ s (safe_play_medium_detail_scenes dev fuel mt)).
  - intros name Hn H. apply Hn. apply (scene_file_played fp). exact H.
  - simpl. discriminate.
  - simpl. discriminate.
  - simpl. discriminate.
Qed.

(** ** Score extraction *)

Lemma match_atoms_some p s r :
  Py.match_atoms p s = Some r <-> exists w, s = (w ++ r)%list /\ Py.atoms_match p w.
Proof.
  revert s. induction p as [|a p IH]; intros s; simpl.
  - split.
    + intros H. inversion H. exists []. split; [reflexivity | constructor].
    + intros [w [Hs Hw]]. inversion Hw. subst. reflexivity.
  - destruct s as [|c s].
    + split; [discriminate|]. intros [w [Hs Hw]]. inversion Hw; subst. discriminate.
    + destruct (Py.atom_matches a c) eqn:E.
      * rewrite IH. split.
        -- intros [w [Hs Hw]]. exists (c :: w). subst. split; [reflexivity|].
           constructor; auto.
        -- intros [w [Hs Hw]]. inversion Hw as [|a' c' p' w' Hac Hw']; subst.
           inversion Hs; subst. exists w'. auto.
      * split; [discriminate|]. intros [w [Hs Hw]].
        inversion Hw as [|a' c' p' w' Hac Hw']; subst. inversion Hs; subst. congruence.
Qed.

Lemma take_digits_split s :
  s = (fst (Py.take_digits s) ++ snd (Py.take_digits s))%list
  /\ Forall (fun c => Py.is_digit c = true) (fst (Py.take_digits s)).
Proof.
  induction s as [|c s [IH1 IH2]]; simpl.
  - split; [reflexivity | constructor].
  - destruct (Py.is_digit c) eqn:E.
    + destruct (Py.take_digits s) as [d r]. simpl in *. split.
      * now rewrite <- IH1.
      * constructor; auto.
    + simpl. split; [reflexivity | constructor].
Qed.

(** A run of digits followed by a non-digit (or by nothing) is exactly
    what [take_digits] takes. *)
Lemma take_digits_app ds rest :
  Forall (fun c => Py.is_digit c = true) ds ->
  match rest with c :: _ => Py.is_digit c = false | [] => True end ->
  Py.take_digits (ds ++ rest) = (ds, rest).
Proof.
  intros Hd Hr. induction Hd as [|c ds Hc Hd IH]; simpl.
  - destruct rest as [|c rest]; [reflexivity|]. simpl. now rewrite Hr.
  - rewrite Hc, IH. reflexivity.
Qed.

Lemma match_here_some pre post s d :
  Py.match_here pre post s = Some d ->
  exists w1 w2 after,
    s = (w1 ++ d ++ w2 ++ after)%list /\ Py.atoms_match pre w1
    /\ d <> [] /\ Forall (fun c => Py.is_digit c = true) d /\ Py.atoms_match post w2.
Proof.
  unfold Py.match_here.
  destruct (Py.match_atoms pre s) as [r|] eqn:E1; [|discriminate].
  apply match_atoms_some in E1. destruct E1 as [w1 [Hs Hw1]].
  destruct (take_digits_split r) as [Hr Hd].
  destruct (Py.take_digits r) as [ds r']. simpl in Hr, Hd.
  destruct ds as [|c ds]; [discriminate|].
  destruct (Py.match_atoms post r') as [after|] eqn:E2; [|discriminate].
  apply match_atoms_some in E2. destruct E2 as [w2 [Hr' Hw2]].
  intros H. inversion H; subst d. exists w1, w2, after. subst.
  repeat split; auto. discriminate.
Qed.

Lemma match_here_complete pre post a rest w1 ds w2 after :
  post = a :: rest ->
  (forall c, Py.is_digit c = true -> Py.atom_matches a c = false) ->
  Py.atoms_match pre w1 -> ds <> [] -> Forall (fun c => Py.is_digit c = true) ds ->
  Py.atoms_match post w2 ->
  Py.match_here pre post (w1 ++ ds ++ w2 ++ after) = Some ds.
Proof.
  intros Hp Ha Hw1 Hne Hd Hw2. unfold Py.match_here.
  assert (E1 : Py.match_atoms pre (w1 ++ ds ++ w2 ++ after)
               = Some (ds ++ w2 ++ after)%list).
  { apply match_atoms_some. exists w1. auto. }
  rewrite E1.
  assert (E2 : Py.take_digits (ds ++ w2 ++ after) = (ds, (w2 ++ after)%list)).
  { apply take_digits_app; [exact Hd|].
    subst post. inversion Hw2 as [|a' c p' w' Hac Hw']; subst. simpl.
    destruct (Py.is_digit c) eqn:Ec; [|reflexivity].
    rewrite (Ha c Ec) in Hac. discriminate. }
  rewrite E2.
  destruct ds as [|c ds]; [congruence|].
  assert (E3 : Py.match_atoms post (w2 ++ after) = Some after).
  { apply match_atoms_some. exists w2. auto. }
  rewrite E3. reflexivity.
Qed.

Lemma search_from_some pre post s d :
  Py.search_from pre post s = Some d ->
  exists before w1 w2 after,
    s = (before ++ w1 ++ d ++ w2 ++ after)%list /\ Py.atoms_match pre w1
    /\ d <> [] /\ Forall (fun c => Py.is_digit c = true) d /\ Py.atoms_match post w2.
Proof.
  induction s as [|c s IH]; simpl.
  - destruct (Py.match_here pre post []) eqn:E; [|discriminate].
    intros H; inversion H; subst.
    apply match_here_some in E. destruct E as (w1 & w2 & after & H1 & H2).
    exists [], w1, w2, after. auto.
  - destruct (Py.match_here pre post (c :: s)) eqn:E.
    + intros H; inversion H; subst.
      apply match_here_some in E. destruct E as (w1 & w2 & after & H1 & H2).
      exists [], w1, w2, after. auto.
    + intros H. destruct (IH H) as (before & w1 & w2 & after & H1 & H2).
      exists (c :: before), w1, w2, after. split; [simpl; now rewrite H1 | exact H2].
Qed.

Lemma search_from_complete pre post a rest before w1 ds w2 after :
  post = a :: rest ->
  (forall c, Py.is_digit c = true -> Py.atom_matches a c = false) ->
  Py.atoms_match pre w1 -> ds <> [] -> Forall (fun c => Py.is_digit c = true) ds ->
  Py.atoms_match post w2 ->
  Py.search_from pre post (before ++ w1 ++ ds ++ w2 ++ after) <> None.
Proof.
  intros Hp Ha Hw1 Hne Hd Hw2. induction before as [|c before IH].
  - simpl app.
    pose proof (match_here_complete pre post a rest w1 ds w2 after Hp Ha Hw1 Hne Hd Hw2) as E.
    destruct (w1 ++ ds ++ w2 ++ after)%list; simpl; rewrite E; discriminate.
  - simpl. destruct (Py.match_here pre post _); [discriminate | exact IH].
Qed.

(** [re.search] finds nothing exactly when the text holds no match of
    the pattern. *)
Lemma re_search_none p s :
  Py.suffix_starts_off_digits p ->
  (Py.re_search p s = None <-> ~ Py.contains_match p s).
Proof.
  intros (a & rest & Hp & Ha). unfold Py.re_search, Py.contains_match. split.
  - intros H (before & w1 & ds & w2 & after & Hs & Hw1 & Hne & Hd & Hw2).
    rewrite Hs in H.
    pose proof (search_from_complete _ _ a rest before w1 ds w2 after Hp Ha Hw1 Hne Hd Hw2) as E.
    destruct (Py.search_from _ _ _); [discriminate | congruence].
  - intros H. destruct (Py.search_from _ _ _) as [d|] eqn:E; [|reflexivity].
    exfalso. apply H. apply search_from_some in E.
    destruct E as (before & w1 & w2 & after & H1 & H2 & H3 & H4 & H5).
    exists before, w1, d, w2, after. auto.
Qed.

Lemma not_digit_percent c : Py.is_digit c = true -> Py.atom_matches (Py.Lit "%") c = false.
Proof.
  intros H. simpl. destruct (Ascii.eqb_spec c "%"); [subst; discriminate | reflexivity].
Qed.

Lemma not_digit_space c : Py.is_digit c = true -> Py.atom_matches Py.Space c = false.
Proof.
  unfold Py.is_digit, Py.atom_matches, Py.is_space. intros H.
  apply andb_true_iff in H. destruct H as [H1 H2].
  apply Nat.leb_le in H1. apply Nat.leb_le in H2.
  repeat match goal with
  | |- context [(?a <=? ?b)%nat] => destruct (Nat.leb_spec a b)
  | |- context [(?a =? ?b)%nat] => destruct (Nat.eqb_spec a b)
  end; simpl; try reflexivity; lia.
Qed.

Lemma high_pattern_shape : Py.suffix_starts_off_digits high_pattern.
Proof. exists (Py.Lit "%"), []. split; [reflexivity | apply not_digit_percent]. Qed.

Lemma low_pattern_shape : Py.suffix_starts_off_digits low_pattern.
Proof. exists (Py.Lit "%"), []. split; [reflexivity | apply not_digit_percent]. Qed.

Lemma motion_pattern_shape : Py.suffix_starts_off_digits motion_pattern.
Proof.
  exists Py.Space, (Py.lits "percent"). split; [reflexivity | apply not_digit_space].
Qed.

Lemma check_detail_run dev s text :
  popen_stdout dev (log s) detail_command = Some text ->
  check_detail dev s
  = Ok tt (mkSt (store_if_found low_detail (Py.re_search low_pattern text)
                   (store_if_found high_detail (Py.re_search high_pattern text) (self s)))
             (log s ++ [SubprocessPopen detail_command])).
Proof.
  intros H. cbv [check_detail bind popen_communicate]. rewrite H.
  destruct (Py.re_search high_pattern text), (Py.re_search low_pattern text);
    reflexivity.
Qed.


Lemma check_motion_no_match dev fuel s :
  Py.re_search motion_pattern (console_output dev (log s) "ms") = None ->
  check_motion dev (S fuel) s
  = Raise AttributeError
      (mkSt (with_motion_list [] (with_zattr sample_range 10 (self s)))
         (log s ++ [ConsoleCmd "ms"])).
Proof.
  intros H.
  cbv [check_motion bind set_z modify while_true check_motion_body execute_console_cmd].
  cbn [self log]. rewrite H. reflexivity.
Qed.

(** C3 as stated fails: on a text that holds neither detail pattern,
    [check_detail] returns normally and the scores stored before stay. *)
Lemma check_detail_keeps_scores_counterexample :
  popen_stdout Sim.silent (log Sim.scored) detail_command = Some "no scores here"
  /\ ~ Py.contains_match high_pattern "no scores here"
  /\ ~ Py.contains_match low_pattern "no scores here"
  /\ exists s', check_detail Sim.silent Sim.scored = Ok tt s'
       /\ zattrs (self s') high_detail = Some 42
       /\ zattrs (self s') low_detail = Some 17.
Proof.
  split; [reflexivity|]. split; [|split].
  - apply (re_search_none _ _ high_pattern_shape). reflexivity.
  - apply (re_search_none _ _ low_pattern_shape). reflexivity.
  - eexists. split; [reflexivity|]. split; reflexivity.
Qed.

(** ** Motion sampling *)

Lemma index_last {A} (a : list A) (v : A) : Py.index (a ++ [v]) (-1) = Some v.
Proof.
  unfold Py.index. rewrite length_app. simpl List.length.
  replace (-1 <? 0) with true by reflexivity.
  destruct (Z.ltb_spec (-1 + Z.of_nat (List.length a + 1)) 0) as [H|H]; [lia|].
  replace (Z.to_nat (-1 + Z.of_nat (List.length a + 1))) with (List.length a) by lia.
  rewrite nth_error_app2 by lia. rewrite Nat.sub_diag. reflexivity.
Qed.

Lemma slice_last_ten {A} (ml : list A) (v : A) :
  (10 <= List.length (ml ++ [v]))%nat ->
  Py.slice_from (-10) (ml ++ [v])
  = (skipn (List.length ml - 9) ml ++ [v])%list.
Proof.
  intros H. rewrite length_app in H. simpl in H.
  unfold Py.slice_from. replace (-10 <? 0) with true by reflexivity.
  rewrite length_app. simpl List.length.
  replace (Z.to_nat (-10 + Z.of_nat (List.length ml + 1))) with (List.length ml - 9)%nat by lia.
  rewrite skipn_app.
  replace (List.length ml - 9 - List.length ml)%nat with O by lia. reflexivity.
Qed.

(** One poll: the reading is appended, three seconds pass, and then the
    three-way test on the number of samples decides. *)
Lemma check_motion_body_run dev s v :
  Py.re_search motion_pattern (console_output dev (log s) "ms") = Some v ->
  zattrs (self s) sample_range = Some 10 ->
  let l := (motion_list (self s) ++ [v])%list in
  let s1 := mkSt (with_motion_list l (self s)) (log s ++ [ConsoleCmd "ms"; Sleep 3]) in
  check_motion_body dev tt s
  = if Z.of_nat (List.length l) <? 10 then Ok (inl tt) s1
    else if Z.of_nat (List.length l) =? 20 then
      Ok (inr tt) (mkSt (with_zattr motion_score (Py.int_mean l) (self s1)) (log s1))
    else if Qeq_bool (Py.var (Py.slice_from (-10) l)) 0 then
      Ok (inr tt) (mkSt (with_zattr motion_score v (self s1)) (log s1))
    else Ok (inl tt) s1.
Proof.
  intros Hv Hn l s1.
  cbv [check_motion_body bind execute_console_cmd]. cbn [self log]. rewrite Hv.
  cbv [gets modify emit attr_z attr set_z ret]. cbn [self log motion_list with_motion_list zattrs].
  rewrite Hn. fold l. rewrite <- app_assoc. cbn [app]. fold s1.
  destruct (Z.ltb_spec (Z.of_nat (List.length l)) 10) as [H10|H10]; [reflexivity|].
  destruct (Z.of_nat (List.length l) =? 20); [reflexivity|].
  replace (- (10)) with (-10) by reflexivity.
  destruct (Qeq_bool (Py.var (Py.slice_from (-10) l)) 0); [|reflexivity].
  unfold l at 1. rewrite slice_last_ten by (fold l; lia).
  unfold item. rewrite index_last. reflexivity.
Qed.

Lemma sq_dev_nonneg mu x : (0 <= Py.sq_dev mu x)%Q.
Proof. unfold Py.sq_dev. generalize (inject_Z x - mu)%Q. intros q. nra. Qed.

Lemma sum_sq_nonneg mu l : (0 <= fold_right Qplus 0 (map (Py.sq_dev mu) l))%Q.
Proof.
  induction l as [|x l IH]; simpl; [lra|].
  pose proof (sq_dev_nonneg mu x). lra.
Qed.

Lemma sum_sq_zero mu l :
  (fold_right Qplus 0 (map (Py.sq_dev mu) l) == 0)%Q ->
  forall x, In x l -> (inject_Z x == mu)%Q.
Proof.
  induction l as [|y l IH]; simpl; intros H x Hx; [contradiction|].
  pose proof (sq_dev_nonneg mu y) as Hy. pose proof (sum_sq_nonneg mu l) as Hl.
  destruct Hx as [<-|Hx].
  - assert (Hz : (Py.sq_dev mu y == 0)%Q) by lra.
    unfold Py.sq_dev in Hz. apply Qmult_integral in Hz. lra.
  - apply IH; [lra | exact Hx].
Qed.

Lemma sum_constant c l : (forall x, In x l -> x = c) -> Py.sum l = Z.of_nat (List.length l) * c.
Proof.
  induction l as [|y l IH]; intros H; [reflexivity|].
  simpl Py.sum. rewrite IH by (intros; apply H; now right).
  rewrite (H y) by now left. simpl List.length. lia.
Qed.

Lemma sum_sq_constant c mu l :
  (inject_Z c == mu)%Q -> (forall x, In x l -> x = c) ->
  (fold_right Qplus 0 (map (Py.sq_dev mu) l) == 0)%Q.
Proof.
  intros Hc. induction l as [|y l IH]; intros H; simpl; [lra|].
  rewrite IH by (intros; apply H; now right).
  rewrite (H y) by now left. unfold Py.sq_dev. rewrite Hc. ring.
Qed.

(** The variance of a non-empty list of integers is zero exactly when
    all its elements are equal. *)
Lemma var_zero_iff l :
  l <> [] ->
  (Qeq_bool (Py.var l) 0 = true <-> forall x y, In x l -> In y l -> x = y).
Proof.
  intros Hne.
  assert (Hn : (0 < inject_Z (Z.of_nat (List.length l)))%Q).
  { destruct l; [congruence|]. unfold Qlt. simpl. lia. }
  rewrite Qeq_bool_iff. unfold Py.var. split.
  - intros H x y Hx Hy.
    assert (Hs : (fold_right Qplus 0 (map (Py.sq_dev (Py.mean l)) l) == 0)%Q).
    { apply Qmult_integral_l with (x := (/ inject_Z (Z.of_nat (List.length l)))%Q).
      - apply Qinv_lt_0_compat in Hn. lra.
      - rewrite Qmult_comm. exact H. }
    pose proof (sum_sq_zero _ _ Hs x Hx) as Ex.
    pose proof (sum_sq_zero _ _ Hs y Hy) as Ey.
    rewrite <- Ey in Ex. unfold Qeq in Ex. simpl in Ex. lia.
  - intros H. destruct l as [|c l']; [congruence|].
    assert (Hall : forall x, In x (c :: l') -> x = c).
    { intros x Hx. apply H; [exact Hx | now left]. }
    rewrite (sum_sq_constant c); [field; lra | | exact Hall].
    unfold Py.mean. rewrite (sum_constant c) by exact Hall.
    rewrite inject_Z_mult. field. lra.
Qed.

Lemma check_motion_loop_ends dev n : forall fuel s,
  zattrs (self s) sample_range = Some 10 ->
  (List.length (motion_list (self s)) + n = 20)%nat -> (1 <= n <= fuel)%nat ->
  let o := while_true fuel (check_motion_body dev) tt s in
  ended o /\ (List.length (motion_list (self (final o))) <= 20)%nat.
Proof.
  induction n as [|n IH]; intros fuel s Hsr Hlen Hn; [lia|].
  destruct fuel as [|fuel]; [lia|].
  cbn [while_true]. unfold bind.
  destruct (Py.re_search motion_pattern (console_output dev (log s) "ms")) as [v|] eqn:Ev.
  - rewrite (check_motion_body_run dev s v Ev Hsr).
    set (l := (motion_list (self s) ++ [v])%list).
    assert (Hl : List.length l = S (List.length (motion_list (self s)))).
    { unfold l. rewrite length_app. simpl. lia. }
    set (s1 := mkSt (with_motion_list l (self s)) (log s ++ [ConsoleCmd "ms"; Sleep 3])).
    assert (Hrec : (List.length l < 20)%nat ->
              let o := while_true fuel (check_motion_body dev) tt s1 in
              ended o /\ (List.length (motion_list (self (final o))) <= 20)%nat).
    { intros Hlt. apply IH; [exact Hsr | cbn; lia | lia]. }
    destruct (Z.ltb_spec (Z.of_nat (List.length l)) 10) as [H10|H10].
    { apply Hrec. lia. }
    destruct (Z.eqb_spec (Z.of_nat (List.length l)) 20) as [H20|H20].
    { cbn. split; [exact I | lia]. }
    destruct (Qeq_bool (Py.var (Py.slice_from (-10) l)) 0).
    { cbn. split; [exact I | lia]. }
    apply Hrec. lia.
  - cbv [check_motion_body bind execute_console_cmd]. cbn [self log]. rewrite Ev.
    cbn. split; [exact I | lia].
Qed.

(** X5. The polling loop is bounded: with fuel for twenty rounds
    [check_motion] always comes to an end, and it never holds more than
    twenty samples. *)
Lemma check_motion_bounded dev fuel s :
  (20 <= fuel)%nat ->
  ended (check_motion dev fuel s)
  /\ (List.length (motion_list (self (final (check_motion dev fuel s)))) <= 20)%nat.
Proof.
  intros Hf. cbv [check_motion bind set_z modify]. cbn [self log].
  apply (check_motion_loop_ends dev 20); [reflexivity | reflexivity | lia].
Qed.

(** C2 at the failing input. The camera reads 0, 1, 0, 1, ... for ten
    polls and 5 from then on. With the twentieth sample the last ten
    readings are all 5 and their variance is zero, and yet [check_motion]
    returns 2, the truncated mean of all twenty: the test on the number of
    samples comes before the test on the variance. *)
Theorem check_motion_settled_at_twentieth_sample :
  exists s',
    check_motion (Sim.scripted Sim.late_readings None) 20 Sim.start = Ok tt s'
    /\ motion_list (self s') = Sim.late_readings
    /\ Py.slice_from (-10) (motion_list (self s')) = [5; 5; 5; 5; 5; 5; 5; 5; 5; 5]
    /\ Qeq_bool (Py.var (Py.slice_from (-10) (motion_list (self s')))) 0 = true
    /\ zattrs (self s') motion_score = Some 2.
Proof.
  eexists. split; [vm_compute; reflexivity|]. repeat split; vm_compute; reflexivity.
Qed.

(** ** Answers without a score *)

Lemma scored_nil dev : scored dev [].
Proof. intros l0 rest H. destruct l0; discriminate. Qed.

Lemma scored_snoc dev l e :
  scored dev l ->
  (e = ConsoleCmd "ms" -> Py.contains_match motion_pattern (console_output dev l "ms")) ->
  scored dev (l ++ [e]).
Proof.
  intros Hl He l0 rest H.
  destruct (exists_last (l := ConsoleCmd "ms" :: rest)) as (rest' & x & E); [discriminate|].
  rewrite E, app_assoc in H. apply app_inj_tail in H. destruct H as [H1 H2].
  destruct rest' as [|y rest'].
  - cbn in E. inversion E. subst x. rewrite app_nil_r in H1. subst l0.
    apply He. symmetry. assumption.
  - cbn in E. inversion E. subst y. apply (Hl l0 rest'). exact H1.
Qed.

Lemma unscored_last_is_last dev l l0 rest :
  unscored_last dev l ->
  l = (l0 ++ ConsoleCmd "ms" :: rest)%list ->
  ~ Py.contains_match motion_pattern (console_output dev l0 "ms") ->
  rest = [].
Proof.
  intros (l1 & E & Hs & Hn) H Hl0. subst l.
  destruct (exists_last (l := ConsoleCmd "ms" :: rest)) as (rest' & x & E'); [discriminate|].
  rewrite E', app_assoc in H. apply app_inj_tail in H. destruct H as [H1 H2].
  destruct rest' as [|y rest'].
  - cbn in E'. inversion E'. reflexivity.
  - cbn in E'. inversion E'. subst y. exfalso. apply Hl0. apply (Hs l0 rest'). exact H1.
Qed.

Lemma halts_bind dev {A B} (m : M A) (k : A -> M B) :
  halts_unscored dev m -> (forall a, halts_unscored dev (k a)) ->
  halts_unscored dev (bind m k).
Proof.
  intros Hm Hk s Hs. unfold bind. specialize (Hm s Hs).
  destruct (m s) as [a s1|e s1|s1]; auto. exact (Hk a s1 Hm).
Qed.

Lemma halts_ret dev {A} (a : A) : halts_unscored dev (ret a).
Proof. intros s Hs. exact Hs. Qed.

Lemma halts_raise dev {A} e : halts_unscored dev (@raise A e).
Proof. intros s Hs. left. exact Hs. Qed.

Lemma halts_attr dev {A} (f : Self -> option A) : halts_unscored dev (attr f).
Proof. intros s Hs. unfold attr. destruct (f (self s)); [exact Hs | left; exact Hs]. Qed.

Lemma halts_gets dev {A} (f : Self -> A) : halts_unscored dev (gets f).
Proof. intros s Hs. exact Hs. Qed.

Lemma halts_modify dev f : halts_unscored dev (modify f).
Proof. intros s Hs. exact Hs. Qed.

Lemma halts_item dev {A} (l : list A) i : halts_unscored dev (item l i).
Proof.
  unfold item. destruct (Py.index l i); [apply halts_ret | apply halts_raise].
Qed.

Lemma halts_emit dev e : e <> ConsoleCmd "ms" -> halts_unscored dev (emit e).
Proof.
  intros He s Hs. cbv [emit halted]. cbn [log]. apply scored_snoc; [exact Hs|].
  intros E. contradiction.
Qed.

Lemma halts_popen dev c : halts_unscored dev (popen_communicate dev c).
Proof.
  intros s Hs. cbv [popen_communicate halted]. cbn [log].
  apply scored_snoc; [exact Hs|]. discriminate.
Qed.

Lemma halts_for_each dev {A} (l : list A) (body : A -> M unit) :
  (forall a, halts_unscored dev (body a)) -> halts_unscored dev (for_each l body).
Proof.
  intros Hb. induction l as [|a l IH]; simpl.
  - apply halts_ret.
  - apply halts_bind; [apply Hb | intros _; exact IH].
Qed.

Lemma halts_while dev {X B} (body : X -> M (X + B)) fuel x :
  (forall x, halts_unscored dev (body x)) -> halts_unscored dev (while_true fuel body x).
Proof.
  intros Hb. revert x. induction fuel as [|fuel IH]; intros x; simpl.
  - intros s Hs. exact Hs.
  - apply halts_bind; [apply Hb|].
    intros [x'|b]; [apply IH | apply halts_ret].
Qed.

Ltac halts_step :=
  lazymatch goal with
  | |- halts_unscored _ (bind _ _) => apply halts_bind; [ | intros ? ]
  | |- halts_unscored _ (ret _) => apply halts_ret
  | |- halts_unscored _ (raise _) => apply halts_raise
  | |- halts_unscored _ (attr _) => apply halts_attr
  | |- halts_unscored _ (attr_z _) => apply halts_attr
  | |- halts_unscored _ (attr_q _) => apply halts_attr
  | |- halts_unscored _ (attr_r _) => apply halts_attr
  | |- halts_unscored _ (gets _) => apply halts_gets
  | |- halts_unscored _ (item _ _) => apply halts_item
  | |- halts_unscored _ (emit _) => apply halts_emit; discriminate
  | |- halts_unscored _ (popen_communicate _ _) => apply halts_popen
  | |- halts_unscored _ (set_z _ _) => apply halts_modify
  | |- halts_unscored _ (set_q _ _) => apply halts_modify
  | |- halts_unscored _ (set_r _ _) => apply halts_modify
  | |- halts_unscored _ (modify _) => apply halts_modify
  | |- halts_unscored _ (for_each _ _) => apply halts_for_each; intros ?
  | |- halts_unscored _ (while_true _ _ _) => apply halts_while; intros ?
  | |- halts_unscored _ (if ?b then _ else _) => destruct b
  | |- halts_unscored _ (match ?x with _ => _ end) => destruct x
  end.

Lemma re_search_matched p s v : Py.re_search p s = Some v -> Py.contains_match p s.
Proof.
  unfold Py.re_search. intros H.
  destruct (Py.search_from (Py.pre p) (Py.post p) (list_ascii_of_string s)) as [d|] eqn:E;
    [|discriminate].
  apply search_from_some in E.
  destruct E as (before & w1 & w2 & after & H1 & H2 & H3 & H4 & H5).
  exists before, w1, d, w2, after. auto.
Qed.

(** One poll of [check_motion] whose answer holds no motion score: the
    [AttributeError] of [.group] on [None] leaves it, nothing is assigned. *)
Lemma check_motion_body_unscored dev s :
  ~ Py.contains_match motion_pattern (console_output dev (log s) "ms") ->
  check_motion_body dev tt s
  = Raise AttributeError (mkSt (self s) (log s ++ [ConsoleCmd "ms"])).
Proof.
  intros H. apply (re_search_none _ _ motion_pattern_shape) in H.
  cbv [check_motion_body bind execute_console_cmd]. cbn [self log]. rewrite H.
  reflexivity.
Qed.

Lemma halts_check_motion_body dev u : halts_unscored dev (check_motion_body dev u).
Proof.
  intros s Hs. destruct u.
  destruct (Py.re_search motion_pattern (console_output dev (log s) "ms")) as [v|] eqn:E.
  - assert (Hm : Py.contains_match motion_pattern (console_output dev (log s) "ms"))
      by exact (re_search_matched _ _ _ E).
    unfold check_motion_body.
    assert (Hc : execute_console_cmd dev "ms" s
                 = Ok (console_output dev (log s) "ms")
                     (mkSt (self s) (log s ++ [ConsoleCmd "ms"]))) by reflexivity.
    rewrite (bind_run _ _ _ _ _ Hc). rewrite E.
    assert (Hs1 : scored dev (log (mkSt (self s) (log s ++ [ConsoleCmd "ms"])))).
    { cbn [log]. apply scored_snoc; [exact Hs | intros _; exact Hm]. }
    revert Hs1. generalize (mkSt (self s) (log s ++ [ConsoleCmd "ms"])).
    change (halts_unscored dev
              (l <- gets motion_list ;;
               modify (with_motion_list (l ++ [v])%list) ;;
               emit (Sleep 3) ;;
               l <- gets motion_list ;;
               n <- attr_z sample_range ;;
               if Z.of_nat (List.length l) <? n then ret (inl tt)
               else if Z.of_nat (List.length l) =? 20 then
                 set_z motion_score (Py.int_mean l) ;; ret (inr tt)
               else
                 let data_set := Py.slice_from (- n) l in
                 if Qeq_bool (Py.var data_set) 0 then
                   v <- item data_set (-1) ;;
                   set_z motion_score v ;; ret (inr tt)
                 else ret (inl tt))).
    cbv zeta. repeat halts_step.
  - apply (re_search_none _ _ motion_pattern_shape) in E.
    rewrite (check_motion_body_unscored dev s E). right. split; [reflexivity|].
    exists (log s). auto.
Qed.

Lemma halts_make_scene dev mo l h f r1 r2 name :
  halts_unscored dev (make_scene mo l h f r1 r2 name).
Proof. unfold make_scene, make_frame. repeat halts_step. Qed.

Lemma halts_make_scene_self dev r1 r2 name :
  halts_unscored dev (make_scene_self r1 r2 name).
Proof. unfold make_scene_self. repeat halts_step. apply halts_make_scene. Qed.

Lemma halts_check_motion dev fuel : halts_unscored dev (check_motion dev fuel).
Proof.
  unfold check_motion. repeat first [halts_step | apply halts_check_motion_body].
Qed.

Lemma halts_pscc dev fuel w p : halts_unscored dev (pscc dev fuel w p).
Proof.
  unfold pscc, play_scene, capture_frames, check_detail.
  repeat first [halts_step | apply halts_check_motion].
Qed.

Ltac halts_calls :=
  first
    [ halts_step
    | apply halts_make_scene
    | apply halts_make_scene_self
    | apply halts_pscc ].

Lemma halts_make_motion dev fuel : halts_unscored dev (make_motion dev fuel).
Proof. unfold make_motion, make_motion_body. repeat halts_calls. Qed.

Lemma halts_hd_delta dev fuel : halts_unscored dev (hd_delta dev fuel).
Proof.
  unfold hd_delta, hd_probe_body, hd_step_body, high_delta. repeat halts_calls.
Qed.

Lemma halts_tune_rect dev fuel n : halts_unscored dev (tune_rect dev fuel n).
Proof. unfold tune_rect. repeat halts_calls. Qed.

Lemma halts_ld_rect dev fuel : halts_unscored dev (ld_rect dev fuel).
Proof.
  unfold ld_rect, ld_rect_setup, bisection, bisection_body, right_edge.
  repeat first [apply halts_tune_rect | halts_calls].
Qed.

Ltac halts_procs :=
  repeat first
    [ apply halts_make_motion
    | apply halts_hd_delta
    | apply halts_ld_rect
    | halts_calls ].

Lemma halts_high_detail_scenes dev fuel mt :
  halts_unscored dev (high_detail_scenes dev fuel mt).
Proof. unfold high_detail_scenes, high_rect_body, make_plain_scene. halts_procs. Qed.

Lemma halts_low_detail_scenes dev fuel mt :
  halts_unscored dev (low_detail_scenes dev fuel mt).
Proof. unfold low_detail_scenes, low_fineness_body, make_plain_scene. halts_procs. Qed.

Lemma halts_medium_detail_scenes dev fuel mt :
  halts_unscored dev (medium_detail_scenes dev fuel mt).
Proof. unfold medium_detail_scenes, make_plain_scene. halts_procs. Qed.

(** What [halted] says of a run: an [ms] command whose answer holds no
    motion score is the last event of the run, and the run ended there
    with an [AttributeError]. *)
Lemma halted_spec {A} dev (o : Outcome A) l0 rest :
  halted dev o ->
  log (final o) = (l0 ++ ConsoleCmd "ms" :: rest)%list ->
  ~ Py.contains_match motion_pattern (console_output dev l0 "ms") ->
  o = Raise AttributeError (final o) /\ rest = [].
Proof.
  intros H Hl Hn. destruct o as [a s'|e s'|s']; cbn [final halted] in *.
  - exfalso. apply Hn. exact (H l0 rest Hl).
  - destruct H as [H|[-> H]].
    + exfalso. apply Hn. exact (H l0 rest Hl).
    + split; [reflexivity|]. exact (unscored_last_is_last dev _ l0 rest H Hl Hn).
  - exfalso. apply Hn. exact (H l0 rest Hl).
Qed.

(** [check_motion] assigns the motion score only when it returns. *)
Lemma check_motion_loop_raise dev fuel s e s' :
  zattrs (self s) sample_range = Some 10 ->
  while_true fuel (check_motion_body dev) tt s = Raise e s' ->
  e = AttributeError /\ zattrs (self s') motion_score = zattrs (self s) motion_score.
Proof.
  revert s. induction fuel as [|fuel IH]; intros s Hn H; [discriminate|].
  cbn [while_true] in H.
  destruct (Py.re_search motion_pattern (console_output dev (log s) "ms")) as [v|] eqn:E.
  - unfold bind in H. rewrite (check_motion_body_run dev s v E Hn) in H. cbv zeta in H.
    set (s1 := mkSt (with_motion_list (motion_list (self s) ++ [v]) (self s))
                 (log s ++ [ConsoleCmd "ms"; Sleep 3])) in *.
    assert (H1 : zattrs (self s1) sample_range = Some 10) by exact Hn.
    destruct (Z.of_nat _ <? 10); [exact (IH s1 H1 H)|].
    destruct (Z.of_nat _ =? 20); [discriminate|].
    destruct (Qeq_bool _ 0); [discriminate|]. exact (IH s1 H1 H).
  - apply (re_search_none _ _ motion_pattern_shape) in E.
    unfold bind in H. rewrite (check_motion_body_unscored dev s E) in H.
    inversion H. subst. split; reflexivity.
Qed.

Lemma check_motion_raise dev fuel s e s' :
  check_motion dev fuel s = Raise e s' ->
  e = AttributeError /\ zattrs (self s') motion_score = zattrs (self s) motion_score.
Proof.
  unfold check_motion. cbv [bind set_z modify]. cbn [self log]. intros H.
  apply check_motion_loop_raise in H; [|reflexivity]. exact H.
Qed.

(** C3, as the code has it. When the pattern [30s: N percent] is absent
    from the console's answer to any poll, [check_motion] fails: the
    [AttributeError] of [.group] on [None] (the program has no error type
    of its own) leaves the poll with nothing assigned, and leaves
    [check_motion] with the stored motion score untouched. The error is not
    caught: in a run of [check_motion], [pscc], [make_motion] or one of the
    three scenarios, an [ms] answer without the pattern is the last thing
    the run does, and the run ends there with that [AttributeError].
    [check_detail] does not fail on a text without [HighDetail: N%] or
    [LowDetail: N%]: it returns normally and the score whose pattern is
    absent keeps its previously stored value. *)
Theorem score_extraction_without_pattern dev s :
  (forall fuel,
     ~ Py.contains_match motion_pattern (console_output dev (log s) "ms") ->
     exists s', check_motion dev (S fuel) s = Raise AttributeError s'
                /\ zattrs (self s') motion_score = zattrs (self s) motion_score)
  /\ (forall text,
        popen_stdout dev (log s) detail_command = Some text ->
        exists s', check_detail dev s = Ok tt s'
          /\ (~ Py.contains_match high_pattern text ->
              zattrs (self s') high_detail = zattrs (self s) high_detail)
          /\ (~ Py.contains_match low_pattern text ->
              zattrs (self s') low_detail = zattrs (self s) low_detail))
  /\ (~ Py.contains_match motion_pattern (console_output dev (log s) "ms") ->
      check_motion_body dev tt s
      = Raise AttributeError (mkSt (self s) (log s ++ [ConsoleCmd "ms"])))
  /\ (forall fuel e s',
        check_motion dev fuel s = Raise e s' ->
        e = AttributeError /\ zattrs (self s') motion_score = zattrs (self s) motion_score)
  /\ scored dev []
  /\ (scored dev (log s) ->
      forall fuel wait_time motion_target_ l0 rest,
        ~ Py.contains_match motion_pattern (console_output dev l0 "ms") ->
        (log (final (check_motion dev fuel s)) = (l0 ++ ConsoleCmd "ms" :: rest)%list ->
         check_motion dev fuel s = Raise AttributeError (final (check_motion dev fuel s))
         /\ rest = [])
        /\ (log (final (pscc dev fuel wait_time "motion" s))
            = (l0 ++ ConsoleCmd "ms" :: rest)%list ->
            pscc dev fuel wait_time "motion" s
            = Raise AttributeError (final (pscc dev fuel wait_time "motion" s))
            /\ rest = [])
        /\ (log (final (make_motion dev fuel s)) = (l0 ++ ConsoleCmd "ms" :: rest)%list ->
            make_motion dev fuel s = Raise AttributeError (final (make_motion dev fuel s))
            /\ rest = [])
        /\ (log (final (high_detail_scenes dev fuel motion_target_ s))
            = (l0 ++ ConsoleCmd "ms" :: rest)%list ->
            high_detail_scenes dev fuel motion_target_ s
            = Raise AttributeError (final (high_detail_scenes dev fuel motion_target_ s))
            /\ rest = [])
        /\ (log (final (low_detail_scenes dev fuel motion_target_ s))
            = (l0 ++ ConsoleCmd "ms" :: rest)%list ->
            low_detail_scenes dev fuel motion_target_ s
            = Raise AttributeError (final (low_detail_scenes dev fuel motion_target_ s))
            /\ rest = [])
        /\ (log (final (medium_detail_scenes dev fuel motion_target_ s))
            = (l0 ++ ConsoleCmd "ms" :: rest)%list ->
            medium_detail_scenes dev fuel motion_target_ s
            = Raise AttributeError (final (medium_detail_scenes dev fuel motion_target_ s))
            /\ rest = [])).
Proof.
  split; [|split; [|split; [|split; [|split]]]].
  - intros fuel H. apply (re_search_none _ _ motion_pattern_shape) in H.
    rewrite (check_motion_no_match dev fuel s H). eexists. split; reflexivity.
  - intros text Ht. rewrite (check_detail_run dev s text Ht). eexists.
    split; [reflexivity|]. split; intros H.
    + apply (re_search_none _ _ high_pattern_shape) in H. rewrite H.
      destruct (Py.re_search low_pattern text); reflexivity.
    + apply (re_search_none _ _ low_pattern_shape) in H. rewrite H.
      destruct (Py.re_search high_pattern text); reflexivity.
  - apply check_motion_body_unscored.
  - intros fuel e s'. apply check_motion_raise.
  - apply scored_nil.
  - intros Hs fuel w mt l0 rest Hn.
    split; [|split; [|split; [|split; [|split]]]]; intros Hl;
      (eapply halted_spec; [ | exact Hl | exact Hn ]).
    + apply halts_check_motion, Hs.
    + apply halts_pscc, Hs.
    + apply halts_make_motion, Hs.
    + apply halts_high_detail_scenes, Hs.
    + apply halts_low_detail_scenes, Hs.
    + apply halts_medium_detail_scenes, Hs.
Qed.

(** On a camera whose third answer to [ms] holds no score, the
    high-detail scenario ends with the [AttributeError] of the third poll
    of its first round: three [ms] commands were sent, the last being the
    last event, and no motion score was stored. *)
Example high_detail_scenes_on_fading_camera :
  exists s', high_detail_scenes Sim.fading 20 10 Sim.start = Raise AttributeError s'
             /\ Sim.count_ms (log s') = 3%nat
             /\ last (log s') (Sleep 0) = ConsoleCmd "ms"
             /\ zattrs (self s') motion_score = None.
Proof. eexists. split; [vm_compute; reflexivity|]. repeat split; vm_compute; reflexivity. Qed.

(** ** Motion-size bisection *)

Tactic Notation "bind_inv" hyp(H) ident(a) ident(s1) ident(Ha) :=
  apply bind_ok in H; destruct H as (a & s1 & Ha & H).

Lemma safe_ok (R : St -> St -> Prop) {A} (m : M A) s a s' :
  safe R m -> m s = Ok a s' -> R s s'.
Proof. intros Hs Hm. exact (post_ok m s _ _ a s' (Hs s) Hm). Qed.

Lemma attr_z_ok a s v s' :
  attr_z a s = Ok v s' -> s' = s /\ zattrs (self s) a = Some v.
Proof. apply attr_ok. Qed.

Lemma attr_q_ok a s v s' :
  attr_q a s = Ok v s' -> s' = s /\ qattrs (self s) a = Some v.
Proof. apply attr_ok. Qed.

Lemma attr_r_ok a s v s' :
  attr_r a s = Ok v s' -> s' = s /\ rattrs (self s) a = Some v.
Proof. apply attr_ok. Qed.

Lemma set_q_ok a v s u s' :
  set_q a v s = Ok u s' -> s' = mkSt (with_qattr a v (self s)) (log s).
Proof. cbv [set_q modify]. intros H. inversion H. reflexivity. Qed.

Lemma set_z_ok a v s u s' :
  set_z a v s = Ok u s' -> s' = mkSt (with_zattr a v (self s)) (log s).
Proof. cbv [set_z modify]. intros H. inversion H. reflexivity. Qed.

Lemma safe_setup_check_motion dev fuel : safe same_setup (check_motion dev fuel).
Proof.
  unfold check_motion, check_motion_body.
  repeat first [safe_step | safe_setup_leaf].
Qed.

(** With a camera whose answers always hold a score, the polling loop
    returns, and with a motion score assigned. *)
Lemma check_motion_loop_returns dev n : forall fuel s,
  answers_motion dev ->
  zattrs (self s) sample_range = Some 10 ->
  (List.length (motion_list (self s)) + n = 20)%nat -> (1 <= n <= fuel)%nat ->
  exists s' v,
    while_true fuel (check_motion_body dev) tt s = Ok tt s'
    /\ zattrs (self s') motion_score = Some v.
Proof.
  induction n as [|n IH]; intros fuel s Ha Hsr Hlen Hn; [lia|].
  destruct fuel as [|fuel]; [lia|].
  cbn [while_true]. unfold bind.
  destruct (Py.re_search motion_pattern (console_output dev (log s) "ms")) as [v|] eqn:Ev.
  - rewrite (check_motion_body_run dev s v Ev Hsr).
    set (l := (motion_list (self s) ++ [v])%list).
    assert (Hl : List.length l = S (List.length (motion_list (self s)))).
    { unfold l. rewrite length_app. simpl. lia. }
    set (s1 := mkSt (with_motion_list l (self s)) (log s ++ [ConsoleCmd "ms"; Sleep 3])).
    assert (Hrec : (List.length l < 20)%nat ->
              exists s' v0,
                while_true fuel (check_motion_body dev) tt s1 = Ok tt s'
                /\ zattrs (self s') motion_score = Some v0).
    { intros Hlt. apply IH; [exact Ha | exact Hsr | cbn; lia | lia]. }
    destruct (Z.ltb_spec (Z.of_nat (List.length l)) 10) as [H10|H10].
    { apply Hrec. lia. }
    destruct (Z.eqb_spec (Z.of_nat (List.length l)) 20) as [H20|H20].
    { eexists. eexists. split; reflexivity. }
    destruct (Qeq_bool (Py.var (Py.slice_from (-10) l)) 0).
    { eexists. eexists. split; reflexivity. }
    apply Hrec. lia.
  - exfalso. apply (re_search_none _ _ motion_pattern_shape) in Ev. apply Ev, Ha.
Qed.

Lemma check_motion_returns dev fuel s :
  (20 <= fuel)%nat -> answers_motion dev ->
  exists s' v,
    check_motion dev fuel s = Ok tt s' /\ zattrs (self s') motion_score = Some v.
Proof.
  intros Hf Ha. cbv [check_motion bind set_z modify]. cbn [self log].
  apply (check_motion_loop_returns dev 20); [exact Ha | reflexivity | reflexivity | lia].
Qed.

(** One round of the bisection: the scene of the size
    [(x1 + x2) / 2] is assembled, played for 30 seconds and sampled by
    [check_motion]; what follows depends on the score sampled. *)
Lemma make_motion_body_run dev fuel x1 x2 s hr vr :
  zattrs (self s) hor_res = Some hr -> zattrs (self s) ver_res = Some vr ->
  make_motion_body dev fuel (x1, x2) s
  = match check_motion dev fuel (motion_scene_shown (Py.fdiv (Py.fadd x1 x2) 2) hr vr s) with
    | Ok _ s2 =>
        match zattrs (self s2) motion_score, zattrs (self s2) motion_target with
        | Some score, Some target =>
            Ok (next_bounds x1 x2 (Py.fdiv (Py.fadd x1 x2) 2) score target) s2
        | _, _ => Raise AttributeError s2
        end
    | Raise e s2 => Raise e s2
    | OutOfFuel s2 => OutOfFuel s2
    end.
Proof.
  intros Hh Hv. set (mid := Py.fdiv (Py.fadd x1 x2) 2).
  unfold make_motion_body. fold mid.
  rewrite (bind_run _ _ s tt (mkSt (with_qattr mo_size mid (self s)) (log s)))
    by reflexivity.
  rewrite (bind_run _ _ _ mid _) by (apply attr_q_run; reflexivity).
  rewrite (bind_run _ _ _ _ _
             (make_scene_run mid 6 default_rect default_rect "scene"
                (mkSt (with_qattr mo_size mid (self s)) (log s)) hr vr Hh Hv)).
  cbn [self log filepath with_qattr].
  unfold pscc. cbn [String.eqb Ascii.eqb Bool.eqb].
  cbv [play_scene gets emit]. unfold bind at 1 2 3 4. cbn [self log filepath with_zattr].
  rewrite <- !app_assoc. cbn [app].
  match goal with
  | |- context [check_motion dev fuel (mkSt ?a ?b)] =>
      change (mkSt a b) with (motion_scene_shown mid hr vr s)
  end.
  pose proof (safe_setup_check_motion dev fuel (motion_scene_shown mid hr vr s)) as Hs.
  unfold post in Hs. unfold bind.
  destruct (check_motion dev fuel (motion_scene_shown mid hr vr s)) as [[] s2|e s2|s2];
    try reflexivity.
  destruct Hs as (_ & _ & Hq & _).
  assert (Hmo : qattrs (self s2) mo_size = Some mid) by (rewrite Hq; reflexivity).
  unfold attr_z, attr_q, attr.
  destruct (zattrs (self s2) motion_score) as [ms|]; [|reflexivity].
  destruct (zattrs (self s2) motion_target) as [mt|]; [|reflexivity].
  unfold next_bounds.
  destruct (ms =? mt) eqn:E1; [reflexivity|].
  destruct (ms >? mt) eqn:E2; [rewrite Hmo; reflexivity|].
  assert (E3 : (ms <? mt) = true) by lia. rewrite E3, Hmo. reflexivity.
Qed.

Lemma make_motion_body_ok dev fuel x1 x2 s r s' :
  make_motion_body dev fuel (x1, x2) s = Ok r s' ->
  qattrs (self s') mo_size = Some (Py.fdiv (Py.fadd x1 x2) 2)
  /\ zattrs (self s') motion_target = zattrs (self s) motion_target
  /\ exists ms mt,
       zattrs (self s') motion_score = Some ms
       /\ zattrs (self s') motion_target = Some mt
       /\ r = next_bounds x1 x2 (Py.fdiv (Py.fadd x1 x2) 2) ms mt.
Proof.
  unfold make_motion_body. intros H.
  bind_inv H u0 s0 H0. apply set_q_ok in H0.
  bind_inv H mo s1 H1. apply attr_q_ok in H1. destruct H1 as [-> Hmo].
  bind_inv H u2 s2 H2. apply (safe_ok same_setup) in H2; [|apply safe_setup_make_scene].
  bind_inv H u3 s3 H3. apply (safe_ok same_setup) in H3; [|apply safe_setup_pscc].
  bind_inv H ms s4 H4. apply attr_z_ok in H4. destruct H4 as [-> Hms].
  bind_inv H mt s5 H5. apply attr_z_ok in H5. destruct H5 as [-> Hmt].
  assert (Hsetup : same_setup s0 s3) by (etransitivity; eauto).
  destruct Hsetup as (_ & _ & Hq & _ & _ & _ & _ & Hz).
  assert (Hmid : qattrs (self s3) mo_size = Some (Py.fdiv (Py.fadd x1 x2) 2)).
  { rewrite Hq. subst s0. reflexivity. }
  assert (Htgt : zattrs (self s3) motion_target = zattrs (self s) motion_target).
  { rewrite Hz by reflexivity. subst s0. reflexivity. }
  assert (Hend : s' = s3 /\
            r = next_bounds x1 x2 (Py.fdiv (Py.fadd x1 x2) 2) ms mt).
  { unfold next_bounds. destruct (ms =? mt) eqn:E1.
    - apply ret_ok in H. destruct H as [-> ->]. auto.
    - destruct (ms >? mt) eqn:E2.
      + bind_inv H mo' s6 H6. apply attr_q_ok in H6. destruct H6 as [-> Hmo'].
        apply ret_ok in H. destruct H as [-> ->]. split; [reflexivity|]. congruence.
      + assert (E3 : (ms <? mt) = true) by lia. rewrite E3 in H.
        bind_inv H mo' s6 H6. apply attr_q_ok in H6. destruct H6 as [-> Hmo'].
        apply ret_ok in H. destruct H as [-> ->]. split; [reflexivity|]. congruence. }
  destruct Hend as [-> Hr]. repeat split; auto. exists ms, mt. auto.
Qed.

Lemma while_ok_last {X B} (body : X -> M (X + B)) fuel : forall x s b s',
  while_true fuel body x s = Ok b s' ->
  exists x0 s0, body x0 s0 = Ok (inr b) s'.
Proof.
  induction fuel as [|fuel IH]; intros x s b s' H; [discriminate|].
  cbn [while_true] in H. apply bind_ok in H. destruct H as ([x1|b1] & s1 & Hb & H).
  - exact (IH _ _ _ _ H).
  - apply ret_ok in H. destruct H as [-> ->]. eauto.
Qed.

Lemma next_bounds_spec x1 x2 mo score target :
  (next_bounds x1 x2 mo score target = inr tt <-> score = target)
  /\ (score > target -> next_bounds x1 x2 mo score target = inl (x1, mo))
  /\ (score < target -> next_bounds x1 x2 mo score target = inl (mo, x2)).
Proof.
  unfold next_bounds. destruct (Z.eqb_spec score target) as [E|E].
  - split; [tauto|]. split; intros; lia.
  - split; [|split].
    + split; [|contradiction]. destruct (score >? target); discriminate.
    + intros G. replace (score >? target) with true by lia. reflexivity.
    + intros G. replace (score >? target) with false by lia. reflexivity.
Qed.

(** C1. [make_motion] bisects the size of the motion object over
    [[0, hor_res]], and [hor_res] is 3840. In each round the midpoint
    [(x1 + x2) / 2] is taken as the size, the plain scene of that size is
    assembled, played for 30 seconds and sampled; the round is the last one
    exactly when the sampled motion score equals the target, it moves the
    upper bound to the midpoint when the score is above the target and the
    lower bound when it is below. With a camera that always answers with a
    score a round always completes. [make_motion] returns when, and only
    when, a round samples a score equal to the target, with no tolerance
    band. *)
Theorem make_motion_bisects_to_exact_score dev fuel :
  (forall fp url tol, zattrs (initial_self fp url tol) hor_res = Some 3840)
  /\ (forall s hr,
        zattrs (self s) hor_res = Some hr ->
        make_motion dev fuel s
        = while_true fuel (make_motion_body dev fuel) (0%Q, inject_Z hr) s)
  /\ (forall x1 x2 s hr vr,
        zattrs (self s) hor_res = Some hr -> zattrs (self s) ver_res = Some vr ->
        make_motion_body dev fuel (x1, x2) s
        = match check_motion dev fuel
                  (motion_scene_shown (Py.fdiv (Py.fadd x1 x2) 2) hr vr s) with
          | Ok _ s2 =>
              match zattrs (self s2) motion_score, zattrs (self s2) motion_target with
              | Some score, Some target =>
                  Ok (next_bounds x1 x2 (Py.fdiv (Py.fadd x1 x2) 2) score target) s2
              | _, _ => Raise AttributeError s2
              end
          | Raise e s2 => Raise e s2
          | OutOfFuel s2 => OutOfFuel s2
          end)
  /\ (forall x1 x2 mo score target,
        (next_bounds x1 x2 mo score target = inr tt <-> score = target)
        /\ (score > target -> next_bounds x1 x2 mo score target = inl (x1, mo))
        /\ (score < target -> next_bounds x1 x2 mo score target = inl (mo, x2)))
  /\ (forall x1 x2 s hr vr target,
        (20 <= fuel)%nat -> answers_motion dev ->
        zattrs (self s) hor_res = Some hr -> zattrs (self s) ver_res = Some vr ->
        zattrs (self s) motion_target = Some target ->
        exists score s',
          make_motion_body dev fuel (x1, x2) s
          = Ok (next_bounds x1 x2 (Py.fdiv (Py.fadd x1 x2) 2) score target) s'
          /\ zattrs (self s') motion_score = Some score
          /\ qattrs (self s') mo_size = Some (Py.fdiv (Py.fadd x1 x2) 2))
  /\ (forall n b s s',
        make_motion_body dev fuel b s = Ok (inr tt) s' ->
        while_true (S n) (make_motion_body dev fuel) b s = Ok tt s')
  /\ (forall n b b' s s1,
        make_motion_body dev fuel b s = Ok (inl b') s1 ->
        while_true (S n) (make_motion_body dev fuel) b s
        = while_true n (make_motion_body dev fuel) b' s1)
  /\ (forall s s',
        make_motion dev fuel s = Ok tt s' ->
        exists score, zattrs (self s') motion_score = Some score
                      /\ zattrs (self s') motion_target = Some score).
Proof.
  split; [reflexivity|]. split; [|split; [|split; [|split; [|split; [|split]]]]].
  - intros s hr Hh. unfold make_motion. rewrite (bind_run _ _ _ _ _ (attr_z_run _ _ _ Hh)).
    reflexivity.
  - intros x1 x2 s hr vr. apply make_motion_body_run.
  - apply next_bounds_spec.
  - intros x1 x2 s hr vr target Hf Ha Hh Hv Ht.
    rewrite (make_motion_body_run dev fuel x1 x2 s hr vr Hh Hv).
    set (s1 := motion_scene_shown (Py.fdiv (Py.fadd x1 x2) 2) hr vr s).
    destruct (check_motion_returns dev fuel s1 Hf Ha) as (s2 & v & Hrun & Hscore).
    pose proof (safe_ok same_setup _ _ _ _ (safe_setup_check_motion dev fuel) Hrun) as Hs.
    destruct Hs as (_ & _ & Hq & _ & _ & _ & _ & Hz).
    rewrite Hrun, Hscore. rewrite (Hz motion_target) by reflexivity.
    unfold s1. cbn [motion_scene_shown self zattrs with_zattr with_qattr upd ZAttr_code
                      Pos.eqb].
    rewrite Ht. exists v, s2. split; [reflexivity|]. split; [exact Hscore|].
    rewrite Hq. reflexivity.
  - intros n b s s' H. cbn [while_true]. rewrite (bind_run _ _ _ _ _ H). reflexivity.
  - intros n b b' s s1 H. cbn [while_true]. rewrite (bind_run _ _ _ _ _ H). reflexivity.
  - intros s s' H. unfold make_motion in H.
    apply bind_ok in H. destruct H as (hr & s1 & _ & H).
    apply while_ok_last in H. destruct H as ([x1 x2] & s0 & H).
    destruct (make_motion_body_ok _ _ _ _ _ _ _ H) as (_ & _ & ms & mt & Hms & Hmt & Hr).
    exists ms. split; [exact Hms|]. rewrite Hmt. f_equal. symmetry.
    apply (proj1 (next_bounds_spec x1 x2 (Py.fdiv (Py.fadd x1 x2) 2) ms mt)).
    symmetry. exact Hr.
Qed.

(** The loop is its first [n] rounds followed by the rest of the loop. *)
Lemma while_true_rounds {X B} n k (body : X -> M (X + B)) x s :
  while_true (n + k) body x s
  = (r <- rounds n body x ;;
     match r with
     | inl x' => while_true k body x'
     | inr b => ret b
     end) s.
Proof.
  revert x s. induction n as [|n IH]; intros x s.
  - reflexivity.
  - cbn [Nat.add while_true rounds]. unfold bind.
    destruct (body x s) as [[x'|b] s1|e s1|s1]; try reflexivity.
    rewrite IH. reflexivity.
Qed.





(** From the 54th round of that run on, the size taken is the upper bound
    3840 itself and the bounds no longer change: the loop does not end. *)
Example make_motion_bounds_meet :
  exists s54,
    rounds 54 (make_motion_body Sim.camera 20) (0%Q, 3840%Q) Sim.out_of_reach
    = Ok (inl (3840%Q, 3840%Q)) s54
    /\ exists s55,
         make_motion_body Sim.camera 20 (3840%Q, 3840%Q) s54 = Ok (inl (3840%Q, 3840%Q)) s55.
Proof.
  eexists. split; [vm_compute; reflexivity|].
  eexists. vm_compute. reflexivity.
Qed.

Example make_motion_on_camera :
  exists s', make_motion Sim.camera 20 Sim.aiming = Ok tt s'
             /\ zattrs (self s') motion_score = Some 10
             /\ Qeq_bool (match qattrs (self s') mo_size with Some q => q | None => 0 end) 960 = true.
Proof. eexists. split; [vm_compute; reflexivity|]. split; vm_compute; reflexivity. Qed.

(** ** High-detail search *)

Lemma safe_setup_make_scene_self r1 r2 name :
  safe same_setup (make_scene_self r1 r2 name).
Proof.
  unfold make_scene_self. repeat first [safe_step | apply safe_setup_make_scene].
Qed.

Lemma high_delta_ok s delta s' :
  high_delta s = Ok delta s' ->
  s' = s /\ exists hd t, zattrs (self s) high_detail = Some hd
                        /\ zattrs (self s) high_detail_target = Some t
                        /\ delta = Z.abs (hd - t).
Proof.
  unfold high_delta. intros H.
  bind_inv H hv s1 H1. apply attr_z_ok in H1. destruct H1 as [-> Hhd].
  bind_inv H t s2 H2. apply attr_z_ok in H2. destruct H2 as [-> Ht].
  apply ret_ok in H. destruct H as [-> ->]. split; [reflexivity|]. eauto.
Qed.

(** One probe: the fineness goes up by one, the scene is shown and
    measured, and the new distance to the target is compared with the
    initial one. *)
Lemma hd_probe_body_ok dev fuel delta_i s r s' :
  hd_probe_body dev fuel delta_i tt s = Ok r s' ->
  exists f hd t,
    zattrs (self s) fineness = Some f
    /\ zattrs (self s') fineness = Some (f + 1)
    /\ zattrs (self s') high_detail = Some hd
    /\ zattrs (self s') high_detail_target = Some t
    /\ (Z.abs (hd - t) < delta_i ->
        r = inr (Z.abs (hd - t)) /\ zattrs (self s') direction = Some 1)
    /\ (Z.abs (hd - t) > delta_i ->
        r = inr (Z.abs (hd - t)) /\ zattrs (self s') direction = Some (-1))
    /\ (Z.abs (hd - t) = delta_i -> r = inl tt).
Proof.
  unfold hd_probe_body. intros H.
  bind_inv H f s0 H0. apply attr_z_ok in H0. destruct H0 as [-> Hf].
  bind_inv H u1 s1 H1. apply set_z_ok in H1.
  bind_inv H r1 s2 H2. apply attr_r_ok in H2. destruct H2 as [-> _].
  bind_inv H r2 s3 H3. apply attr_r_ok in H3. destruct H3 as [-> _].
  bind_inv H u4 s4 H4. apply (safe_ok same_setup) in H4; [|apply safe_setup_make_scene_self].
  bind_inv H u5 s5 H5. apply (safe_ok same_setup) in H5; [|apply safe_setup_pscc].
  bind_inv H delta s6 H6. apply high_delta_ok in H6.
  destruct H6 as (-> & hd & t & Hhd & Ht & ->).
  assert (Hsetup : same_setup s1 s5) by (etransitivity; eauto).
  destruct Hsetup as (_ & _ & _ & _ & _ & _ & _ & Hz).
  assert (Hf5 : zattrs (self s5) fineness = Some (f + 1)).
  { rewrite Hz by reflexivity. subst s1. reflexivity. }
  exists f, hd, t.
  destruct (Z.gtb_spec (Z.abs (hd - t)) delta_i) as [G|G].
  - bind_inv H u7 s7 H7. apply set_z_ok in H7.
    apply ret_ok in H. destruct H as [-> ->]. subst s7. cbn.
    repeat split; auto; try lia.
  - destruct (Z.ltb_spec (Z.abs (hd - t)) delta_i) as [L|L].
    + bind_inv H u7 s7 H7. apply set_z_ok in H7.
      apply ret_ok in H. destruct H as [-> ->]. subst s7. cbn.
      repeat split; auto; try lia.
    + apply ret_ok in H. destruct H as [-> ->]. repeat split; auto; try lia.
Qed.

(** One step: the fineness moves by [direction], the scene is shown and
    measured; when the distance to the target grew, the fineness moves
    back and the loop ends. *)
Lemma hd_step_body_ok dev fuel delta s r s' :
  hd_step_body dev fuel delta s = Ok r s' ->
  exists f d hd t,
    zattrs (self s) fineness = Some f
    /\ zattrs (self s) direction = Some d
    /\ zattrs (self s') direction = Some d
    /\ zattrs (self s') high_detail = Some hd
    /\ zattrs (self s') high_detail_target = Some t
    /\ (Z.abs (hd - t) <= delta ->
        r = inl (Z.abs (hd - t)) /\ zattrs (self s') fineness = Some (f + d))
    /\ (Z.abs (hd - t) > delta ->
        r = inr tt /\ zattrs (self s') fineness = Some f).
Proof.
  unfold hd_step_body. intros H.
  bind_inv H f s0 H0. apply attr_z_ok in H0. destruct H0 as [-> Hf].
  bind_inv H d s0 H0. apply attr_z_ok in H0. destruct H0 as [-> Hd].
  bind_inv H u1 s1 H1. apply set_z_ok in H1.
  bind_inv H r1 s2 H2. apply attr_r_ok in H2. destruct H2 as [-> _].
  bind_inv H r2 s3 H3. apply attr_r_ok in H3. destruct H3 as [-> _].
  bind_inv H u4 s4 H4. apply (safe_ok same_setup) in H4; [|apply safe_setup_make_scene_self].
  bind_inv H u5 s5 H5. apply (safe_ok same_setup) in H5; [|apply safe_setup_pscc].
  bind_inv H delta' s6 H6. apply high_delta_ok in H6.
  destruct H6 as (-> & hd & t & Hhd & Ht & ->).
  assert (Hsetup : same_setup s1 s5) by (etransitivity; eauto).
  destruct Hsetup as (_ & _ & _ & _ & _ & _ & _ & Hz).
  assert (Hf5 : zattrs (self s5) fineness = Some (f + d)).
  { rewrite Hz by reflexivity. subst s1. reflexivity. }
  assert (Hd5 : zattrs (self s5) direction = Some d).
  { rewrite Hz by reflexivity. subst s1. exact Hd. }
  exists f, d, hd, t.
  destruct (Z.ltb_spec (Z.abs (hd - t)) delta) as [L|L].
  - apply ret_ok in H. destruct H as [-> ->]. repeat split; auto; try lia.
  - destruct (Z.gtb_spec (Z.abs (hd - t)) delta) as [G|G].
    + bind_inv H f' s7 H7. apply attr_z_ok in H7. destruct H7 as [-> Hf'].
      bind_inv H d' s7 H7. apply attr_z_ok in H7. destruct H7 as [-> Hd'].
      bind_inv H u8 s8 H8. apply set_z_ok in H8.
      apply ret_ok in H. destruct H as [-> ->]. subst s8. cbn.
      rewrite Hf5 in Hf'. rewrite Hd5 in Hd'. inversion Hf'. inversion Hd'. subst f' d'.
      repeat split; auto; try lia. f_equal. lia.
    + apply ret_ok in H. destruct H as [-> ->]. repeat split; auto; try lia.
Qed.

Lemma make_scene_self_run r1 r2 name s hr vr mo f :
  zattrs (self s) hor_res = Some hr -> zattrs (self s) ver_res = Some vr ->
  qattrs (self s) mo_size = Some mo -> zattrs (self s) fineness = Some f ->
  make_scene_self r1 r2 name s
  = Ok tt (mkSt (with_zattr mo_size_y (Py.int (inject_Z hr * (1 # 10))) (self s))
             (log s ++ scene_events (filepath (self s)) mo hr vr
                         (Py.int (inject_Z hr * (1 # 10))) f r1 r2 name)).
Proof.
  intros Hh Hv Hm Hf. unfold make_scene_self.
  rewrite (bind_run _ _ _ _ _ (attr_q_run _ _ _ Hm)).
  rewrite (bind_run _ _ _ _ _ (attr_z_run _ _ _ Hf)).
  apply make_scene_run; assumption.
Qed.

Lemma pscc_detail_run dev fuel w s text :
  popen_stdout dev
    (log s ++ [SubprocessPopen (play_command (filepath (self s))); Sleep w;
               SubprocessRun (capture_command (rtsp (self s)) (filepath (self s)))])%list
    detail_command = Some text ->
  pscc dev fuel w "detail" s
  = Ok tt (mkSt (store_if_found low_detail (Py.re_search low_pattern text)
                   (store_if_found high_detail (Py.re_search high_pattern text) (self s)))
             (log s ++ [SubprocessPopen (play_command (filepath (self s))); Sleep w;
                        SubprocessRun (capture_command (rtsp (self s)) (filepath (self s)));
                        SubprocessPopen detail_command])%list).
Proof.
  intros H. unfold pscc. cbn [String.eqb Ascii.eqb Bool.eqb].
  cbv [play_scene gets emit capture_frames]. unfold bind at 1 2 3 4 5 6.
  cbn [self log filepath rtsp]. rewrite <- !app_assoc. cbn [app].
  rewrite (check_detail_run dev _ text) by (cbn [log]; exact H).
  cbn [self log]. rewrite <- !app_assoc. reflexivity.
Qed.

(** The scene of a round of [hd_delta] is assembled and sampled. *)
Lemma detail_round_run {A} dev fuel (k : unit -> M A) s f mo hr vr r1 r2 text :
  zattrs (self s) hor_res = Some hr -> zattrs (self s) ver_res = Some vr ->
  qattrs (self s) mo_size = Some mo ->
  popen_stdout dev (detail_scene_captured f mo hr vr r1 r2 s) detail_command = Some text ->
  bind (make_scene_self r1 r2 "scene") (fun _ => bind (pscc dev fuel 5 "detail") k)
    (mkSt (with_zattr fineness f (self s)) (log s))
  = k tt (detail_scene_sampled f mo hr vr r1 r2 text s).
Proof.
  intros Hh Hv Hm Ht.
  rewrite (bind_run _ _ _ _ _
             (make_scene_self_run r1 r2 "scene"
                (mkSt (with_zattr fineness f (self s)) (log s)) hr vr mo f Hh Hv Hm eq_refl)).
  cbn [self log filepath with_zattr].
  match goal with
  | |- bind _ _ ?s1 = _ =>
      assert (Hp := pscc_detail_run dev fuel 5 s1 text); cbn [self log filepath rtsp] in Hp
  end.
  unfold detail_scene_captured in Ht. rewrite <- app_assoc in Hp.
  rewrite (bind_run _ _ _ _ _ (Hp Ht)).
  unfold detail_scene_sampled. rewrite <- !app_assoc. reflexivity.
Qed.

Lemma high_delta_run s :
  high_delta s
  = match zattrs (self s) high_detail, zattrs (self s) high_detail_target with
    | Some score, Some target => Ok (Z.abs (score - target)) s
    | _, _ => Raise AttributeError s
    end.
Proof.
  unfold high_delta, attr_z, attr, bind.
  destruct (zattrs (self s) high_detail); [|reflexivity].
  destruct (zattrs (self s) high_detail_target); reflexivity.
Qed.

(** One probe of [hd_delta], run. *)
Lemma hd_probe_body_run dev fuel delta_i s f mo hr vr r1 r2 text :
  zattrs (self s) fineness = Some f ->
  rattrs (self s) rect1 = Some r1 -> rattrs (self s) rect2 = Some r2 ->
  zattrs (self s) hor_res = Some hr -> zattrs (self s) ver_res = Some vr ->
  qattrs (self s) mo_size = Some mo ->
  popen_stdout dev (detail_scene_captured (f + 1) mo hr vr r1 r2 s) detail_command
  = Some text ->
  hd_probe_body dev fuel delta_i tt s
  = let s2 := detail_scene_sampled (f + 1) mo hr vr r1 r2 text s in
    match zattrs (self s2) high_detail, zattrs (self s2) high_detail_target with
    | Some score, Some target => probe_outcome (Z.abs (score - target)) delta_i s2
    | _, _ => Raise AttributeError s2
    end.
Proof.
  intros Hf H1 H2 Hh Hv Hm Ht. unfold hd_probe_body.
  rewrite (bind_run _ _ _ _ _ (attr_z_run _ _ _ Hf)).
  rewrite (bind_run _ _ s tt (mkSt (with_zattr fineness (f + 1) (self s)) (log s)))
    by reflexivity.
  rewrite (bind_run _ _ _ r1 _) by (apply attr_r_run; exact H1).
  rewrite (bind_run _ _ _ r2 _) by (apply attr_r_run; exact H2).
  rewrite (detail_round_run dev fuel _ s (f + 1) mo hr vr r1 r2 text Hh Hv Hm Ht).
  cbv zeta. set (s2 := detail_scene_sampled (f + 1) mo hr vr r1 r2 text s).
  unfold bind at 1. rewrite high_delta_run.
  destruct (zattrs (self s2) high_detail) as [score|]; [|reflexivity].
  destruct (zattrs (self s2) high_detail_target) as [target|]; [|reflexivity].
  unfold probe_outcome.
  destruct (Z.abs (score - target) >? delta_i); [reflexivity|].
  destruct (Z.abs (score - target) <? delta_i); reflexivity.
Qed.

(** One step of [hd_delta], run. *)
Lemma hd_step_body_run dev fuel previous_delta s f d mo hr vr r1 r2 text :
  zattrs (self s) fineness = Some f -> zattrs (self s) direction = Some d ->
  rattrs (self s) rect1 = Some r1 -> rattrs (self s) rect2 = Some r2 ->
  zattrs (self s) hor_res = Some hr -> zattrs (self s) ver_res = Some vr ->
  qattrs (self s) mo_size = Some mo ->
  popen_stdout dev (detail_scene_captured (f + d) mo hr vr r1 r2 s) detail_command
  = Some text ->
  hd_step_body dev fuel previous_delta s
  = let s2 := detail_scene_sampled (f + d) mo hr vr r1 r2 text s in
    match zattrs (self s2) high_detail, zattrs (self s2) high_detail_target with
    | Some score, Some target => step_outcome (Z.abs (score - target)) previous_delta f d s2
    | _, _ => Raise AttributeError s2
    end.
Proof.
  intros Hf Hd H1 H2 Hh Hv Hm Ht. unfold hd_step_body.
  rewrite (bind_run _ _ _ _ _ (attr_z_run _ _ _ Hf)).
  rewrite (bind_run _ _ _ _ _ (attr_z_run _ _ _ Hd)).
  rewrite (bind_run _ _ s tt (mkSt (with_zattr fineness (f + d) (self s)) (log s)))
    by reflexivity.
  rewrite (bind_run _ _ _ r1 _) by (apply attr_r_run; exact H1).
  rewrite (bind_run _ _ _ r2 _) by (apply attr_r_run; exact H2).
  rewrite (detail_round_run dev fuel _ s (f + d) mo hr vr r1 r2 text Hh Hv Hm Ht).
  cbv zeta. set (s2 := detail_scene_sampled (f + d) mo hr vr r1 r2 text s).
  assert (Hf2 : zattrs (self s2) fineness = Some (f + d)).
  { subst s2. unfold detail_scene_sampled, store_if_found.
    destruct (Py.re_search low_pattern text), (Py.re_search high_pattern text);
      reflexivity. }
  assert (Hd2 : zattrs (self s2) direction = Some d).
  { subst s2. unfold detail_scene_sampled, store_if_found.
    destruct (Py.re_search low_pattern text), (Py.re_search high_pattern text);
      cbn; exact Hd. }
  unfold bind at 1. rewrite high_delta_run.
  destruct (zattrs (self s2) high_detail) as [score|]; [|reflexivity].
  destruct (zattrs (self s2) high_detail_target) as [target|]; [|reflexivity].
  unfold step_outcome.
  destruct (Z.abs (score - target) <? previous_delta); [reflexivity|].
  destruct (Z.abs (score - target) >? previous_delta); [|reflexivity].
  rewrite (bind_run _ _ _ _ _ (attr_z_run _ _ _ Hf2)).
  rewrite (bind_run _ _ _ _ _ (attr_z_run _ _ _ Hd2)).
  reflexivity.
Qed.

(** The high-detail score after the sampling of a round of [hd_delta]:
    the one in the tool's answer, or the stored one when the answer holds
    none. *)
Lemma detail_scene_sampled_scores f mo hr vr r1 r2 text s hd0 target :
  zattrs (self s) high_detail = Some hd0 ->
  zattrs (self s) high_detail_target = Some target ->
  zattrs (self (detail_scene_sampled f mo hr vr r1 r2 text s)) high_detail
  = Some (match Py.re_search high_pattern text with Some v => v | None => hd0 end)
  /\ zattrs (self (detail_scene_sampled f mo hr vr r1 r2 text s)) high_detail_target
     = Some target.
Proof.
  intros Hh Ht. unfold detail_scene_sampled, store_if_found.
  destruct (Py.re_search low_pattern text), (Py.re_search high_pattern text);
    cbn; auto.
Qed.

(** C5. [hd_delta] takes the distance of the current high-detail score
    to the target as initial delta. A probe raises the fineness by one,
    assembles the scene with that fineness and the current rectangles,
    plays and samples it, and compares the new delta with the initial one:
    the direction becomes +1 when it shrank and -1 when it grew (and the
    probe is repeated when they are equal). Then every step moves the
    fineness by the direction, assembles, plays and samples the scene
    again; the loop goes on while the delta does not grow, and the first
    time it grows the fineness moves back by one step, to the fineness
    before that step, and [hd_delta] returns. With a detail tool that
    answers and a high-detail score stored before, every round
    completes. *)
Theorem hd_delta_descends_to_first_rise dev fuel :
  (forall s, hd_delta dev fuel s
             = (delta_i <- high_delta ;;
                delta <- while_true fuel (hd_probe_body dev fuel delta_i) tt ;;
                while_true fuel (hd_step_body dev fuel) delta) s)
  /\ (forall delta_i s r s',
        hd_probe_body dev fuel delta_i tt s = Ok r s' ->
        exists f score target,
          zattrs (self s) fineness = Some f
          /\ zattrs (self s') fineness = Some (f + 1)
          /\ zattrs (self s') high_detail = Some score
          /\ zattrs (self s') high_detail_target = Some target
          /\ (Z.abs (score - target) < delta_i ->
              r = inr (Z.abs (score - target)) /\ zattrs (self s') direction = Some 1)
          /\ (Z.abs (score - target) > delta_i ->
              r = inr (Z.abs (score - target)) /\ zattrs (self s') direction = Some (-1))
          /\ (Z.abs (score - target) = delta_i -> r = inl tt))
  /\ (forall previous_delta s r s',
        hd_step_body dev fuel previous_delta s = Ok r s' ->
        exists f d score target,
          zattrs (self s) fineness = Some f
          /\ zattrs (self s) direction = Some d
          /\ zattrs (self s') high_detail = Some score
          /\ zattrs (self s') high_detail_target = Some target
          /\ (Z.abs (score - target) <= previous_delta ->
              r = inl (Z.abs (score - target))
              /\ zattrs (self s') fineness = Some (f + d))
          /\ (Z.abs (score - target) > previous_delta ->
              r = inr tt /\ zattrs (self s') fineness = Some f))
  /\ (forall s s',
        hd_delta dev fuel s = Ok tt s' ->
        exists previous_delta s0 f score target,
          hd_step_body dev fuel previous_delta s0 = Ok (inr tt) s'
          /\ zattrs (self s0) fineness = Some f
          /\ zattrs (self s') fineness = Some f
          /\ zattrs (self s') high_detail = Some score
          /\ zattrs (self s') high_detail_target = Some target
          /\ Z.abs (score - target) > previous_delta)
  /\ (forall s, high_delta s
                = match zattrs (self s) high_detail, zattrs (self s) high_detail_target with
                  | Some score, Some target => Ok (Z.abs (score - target)) s
                  | _, _ => Raise AttributeError s
                  end)
  /\ (forall delta_i s f mo hr vr r1 r2 text hd0 target,
        zattrs (self s) fineness = Some f ->
        rattrs (self s) rect1 = Some r1 -> rattrs (self s) rect2 = Some r2 ->
        zattrs (self s) hor_res = Some hr -> zattrs (self s) ver_res = Some vr ->
        qattrs (self s) mo_size = Some mo ->
        zattrs (self s) high_detail = Some hd0 ->
        zattrs (self s) high_detail_target = Some target ->
        popen_stdout dev (detail_scene_captured (f + 1) mo hr vr r1 r2 s) detail_command
        = Some text ->
        let score := match Py.re_search high_pattern text with Some v => v | None => hd0 end in
        hd_probe_body dev fuel delta_i tt s
        = probe_outcome (Z.abs (score - target)) delta_i
            (detail_scene_sampled (f + 1) mo hr vr r1 r2 text s))
  /\ (forall previous_delta s f d mo hr vr r1 r2 text hd0 target,
        zattrs (self s) fineness = Some f -> zattrs (self s) direction = Some d ->
        rattrs (self s) rect1 = Some r1 -> rattrs (self s) rect2 = Some r2 ->
        zattrs (self s) hor_res = Some hr -> zattrs (self s) ver_res = Some vr ->
        qattrs (self s) mo_size = Some mo ->
        zattrs (self s) high_detail = Some hd0 ->
        zattrs (self s) high_detail_target = Some target ->
        popen_stdout dev (detail_scene_captured (f + d) mo hr vr r1 r2 s) detail_command
        = Some text ->
        let score := match Py.re_search high_pattern text with Some v => v | None => hd0 end in
        hd_step_body dev fuel previous_delta s
        = step_outcome (Z.abs (score - target)) previous_delta f d
            (detail_scene_sampled (f + d) mo hr vr r1 r2 text s))
  /\ (forall n delta_i s,
        while_true (S n) (hd_probe_body dev fuel delta_i) tt s
        = match hd_probe_body dev fuel delta_i tt s with
          | Ok (inl _) s1 => while_true n (hd_probe_body dev fuel delta_i) tt s1
          | Ok (inr delta) s1 => Ok delta s1
          | Raise e s1 => Raise e s1
          | OutOfFuel s1 => OutOfFuel s1
          end)
  /\ (forall n delta s,
        while_true (S n) (hd_step_body dev fuel) delta s
        = match hd_step_body dev fuel delta s with
          | Ok (inl delta') s1 => while_true n (hd_step_body dev fuel) delta' s1
          | Ok (inr _) s1 => Ok tt s1
          | Raise e s1 => Raise e s1
          | OutOfFuel s1 => OutOfFuel s1
          end).
Proof.
  split; [reflexivity|]. split; [|split; [|split; [|split; [|split; [|split; [|split]]]]]].
  - intros delta_i s r s' H. exact (hd_probe_body_ok _ _ _ _ _ _ H).
  - intros delta s r s' H.
    destruct (hd_step_body_ok _ _ _ _ _ _ H) as (f & d & hv & t & H1 & H2 & H3 & H4 & H5 & H6 & H7).
    exists f, d, hv, t. repeat split; auto; try apply H6; try apply H7; auto.
  - intros s s' H. unfold hd_delta in H.
    bind_inv H delta_i s1 H1. bind_inv H delta s2 H2.
    apply while_ok_last in H. destruct H as (pd & s0 & H).
    destruct (hd_step_body_ok _ _ _ _ _ _ H) as (f & d & hv & t & Hf & Hd & Hd' & Hh & Ht & Hle & Hgt).
    exists pd, s0, f, hv, t.
    destruct (Z.le_gt_cases (Z.abs (hv - t)) pd) as [L|G].
    + destruct (Hle L) as [Hr _]. discriminate.
    + assert (G' : Z.abs (hv - t) > pd) by lia.
      destruct (Hgt G') as [_ Hf']. repeat split; auto.
  - exact high_delta_run.
  - intros delta_i s f mo hr vr r1 r2 text hd0 target Hf H1 H2 Hh Hv Hm Hs Ht Hp score.
    rewrite (hd_probe_body_run dev fuel delta_i s f mo hr vr r1 r2 text Hf H1 H2 Hh Hv Hm Hp).
    cbv zeta.
    destruct (detail_scene_sampled_scores (f + 1) mo hr vr r1 r2 text s hd0 target Hs Ht)
      as [-> ->].
    reflexivity.
  - intros pd s f d mo hr vr r1 r2 text hd0 target Hf Hd H1 H2 Hh Hv Hm Hs Ht Hp score.
    rewrite (hd_step_body_run dev fuel pd s f d mo hr vr r1 r2 text Hf Hd H1 H2 Hh Hv Hm Hp).
    cbv zeta.
    destruct (detail_scene_sampled_scores (f + d) mo hr vr r1 r2 text s hd0 target Hs Ht)
      as [-> ->].
    reflexivity.
  - intros n delta_i s. cbn [while_true]. unfold bind.
    destruct (hd_probe_body dev fuel delta_i tt s) as [[[]|delta] s1|e s1|s1]; reflexivity.
  - intros n delta s. cbn [while_true]. unfold bind.
    destruct (hd_step_body dev fuel delta s) as [[delta'|[]] s1|e s1|s1]; reflexivity.
Qed.

(** On the simulated camera (score 100 - 5 * fineness, target 60, from
    fineness 9 with score 55): the probe at 10 scores 50, the delta grew,
    direction -1; fineness 9 scores 55, 8 scores 60, 7 scores 65 and the
    delta grew: back to 8. *)
Example hd_delta_on_camera :
  exists s', hd_delta Sim.camera 20 Sim.tuning = Ok tt s'
             /\ zattrs (self s') fineness = Some 8
             /\ zattrs (self s') direction = Some (-1)
             /\ zattrs (self s') high_detail = Some 65.
Proof. eexists. split; [vm_compute; reflexivity|]. repeat split; vm_compute; reflexivity. Qed.

(** * Further properties of the code *)

(** ** Sampling leaves the search alone *)

#[global] Instance keeps_z_preorder a : PreOrder (keeps_z a).
Proof.
  split.
  - intros s. reflexivity.
  - intros s1 s2 s3 H1 H2. unfold keeps_z in *. congruence.
Qed.

Lemma safe_keeps_mo_size_y_pscc dev fuel w p :
  safe (keeps_z mo_size_y) (pscc dev fuel w p).
Proof.
  unfold pscc, play_scene, capture_frames, check_detail, check_motion,
    check_motion_body.
  repeat first
    [ safe_step
    | progress unfold set_z
    | intros ?; cbv [post modify emit execute_console_cmd popen_communicate keeps_z];
      cbn; reflexivity ].
Qed.

#[global] Instance assigns_only_z_preorder a : PreOrder (assigns_only_z a).
Proof.
  split.
  - intros s. unfold assigns_only_z. intuition.
  - intros s1 s2 s3 H1 H2. unfold assigns_only_z in *.
    destruct H1 as (a1 & a2 & a3 & a4 & a5 & a6 & a7 & a8 & a9).
    destruct H2 as (b1 & b2 & b3 & b4 & b5 & b6 & b7 & b8 & b9).
    repeat split; try congruence. intros a' Ha. rewrite b9, a9; auto.
Qed.

Lemma safe_only_set_z a v : safe (assigns_only_z a) (set_z a v).
Proof.
  intros s. apply post_modify. unfold assigns_only_z. cbn. repeat split.
  intros a' Ha'. unfold upd.
  destruct (Pos.eqb_spec (ZAttr_code a') (ZAttr_code a)) as [E|E]; auto.
  exfalso. apply Ha'. destruct a, a'; try discriminate; reflexivity.
Qed.

Lemma safe_only_emit a e : safe (assigns_only_z a) (emit e).
Proof. intros s. apply post_emit. unfold assigns_only_z. cbn. intuition. Qed.

Lemma safe_only_mo_size_y_make_scene mo l h f r1 r2 name :
  safe (assigns_only_z mo_size_y) (make_scene mo l h f r1 r2 name).
Proof.
  unfold make_scene, make_frame.
  repeat first [safe_step | apply safe_only_emit | apply safe_only_set_z].
Qed.

(** X1. Whatever the device answers and however it ends, [pscc] assigns
    nothing but the scores [high_detail], [low_detail] and [motion_score],
    [sample_range] and the list of motion samples: the working directory,
    the targets, the tolerance, the fineness, the size of the motion object,
    [mo_size_y] and all rectangle data are as before. [make_scene] assigns
    only [mo_size_y]: every other attribute, the scores among them, and the
    list of motion samples are as before. *)
Theorem sampling_keeps_the_setup dev fuel wait_time parameter s :
  (same_setup s (final (pscc dev fuel wait_time parameter s))
   /\ zattrs (self (final (pscc dev fuel wait_time parameter s))) mo_size_y
      = zattrs (self s) mo_size_y)
  /\ forall mo len hgt fin r1 r2 name,
       assigns_only_z mo_size_y s (final (make_scene mo len hgt fin r1 r2 name s)).
Proof.
  split; [split|].
  - apply (safe_final same_setup). apply safe_setup_pscc.
  - apply (safe_final (keeps_z mo_size_y)). apply safe_keeps_mo_size_y_pscc.
  - intros. apply (safe_final (assigns_only_z mo_size_y)).
    apply safe_only_mo_size_y_make_scene.
Qed.

(** ** The steps of [pscc] *)

Lemma pscc_detail_log dev fuel w s :
  log (final (pscc dev fuel w "detail" s))
  = (log s ++ [SubprocessPopen (play_command (filepath (self s))); Sleep w;
               SubprocessRun (capture_command (rtsp (self s)) (filepath (self s)));
               SubprocessPopen detail_command])%list.
Proof.
  unfold pscc. cbn [String.eqb Ascii.eqb Bool.eqb].
  cbv [bind play_scene gets emit capture_frames check_detail popen_communicate].
  cbn [self log filepath rtsp].
  destruct (popen_stdout dev _ detail_command) as [text|].
  - destruct (Py.re_search high_pattern text), (Py.re_search low_pattern text);
      cbn; rewrite <- !app_assoc; reflexivity.
  - cbn. rewrite <- !app_assoc. reflexivity.
Qed.

(** X2. In a run in which the player and the capture program can be
    started, a detail cycle does exactly four things to the outside, in
    this order and whatever scores the tools print: it starts the player on
    [scene.mp4], sleeps for the wait time, captures [test.png] from the
    stream, and starts [detail] on it. *)
Theorem pscc_detail_steps dev fuel wait_time s :
  log (final (pscc dev fuel wait_time "detail" s))
  = (log s
     ++ [SubprocessPopen (ffplay_command (filepath (self s) ++ "\bw_frames\scene.mp4"));
         Sleep wait_time;
         SubprocessRun ("ffmpeg -rtsp_transport tcp -loglevel error -i " ++ rtsp (self s)
                        ++ " -y " ++ filepath (self s) ++ "\test.png");
         SubprocessPopen ("detail " ++ dq ++ "test.png" ++ dq)])%list.
Proof. apply pscc_detail_log. Qed.

(** X3. With a [parameter] that is neither ['detail'] nor ['motion'],
    [pscc] still starts the player and sleeps for the wait time, and only
    then gives up with [SystemExit]: nothing is captured or sampled and no
    attribute is assigned. *)
Theorem pscc_unknown_parameter dev fuel wait_time parameter s :
  parameter <> "detail" -> parameter <> "motion" ->
  pscc dev fuel wait_time parameter s
  = Raise SystemExit
      (mkSt (self s)
         (log s ++ [SubprocessPopen (play_command (filepath (self s)));
                    Sleep wait_time])).
Proof.
  intros Hd Hm. unfold pscc.
  apply String.eqb_neq in Hd. apply String.eqb_neq in Hm. rewrite Hd, Hm.
  cbv [bind play_scene gets emit raise]. cbn [self log].
  rewrite <- app_assoc. reflexivity.
Qed.

Lemma pscc_unknown_parameter_witness :
  pscc Sim.camera 20 5 "Detail" Sim.start
  = Raise SystemExit
      (mkSt (self Sim.start)
         (log Sim.start ++ [SubprocessPopen (play_command (filepath (self Sim.start)));
                            Sleep 5])).
Proof.
  apply (pscc_unknown_parameter Sim.camera 20 5 "Detail" Sim.start); discriminate.
Defined.

(** X4. When the [detail] program cannot be started, a detail cycle ends
    with [SystemExit] after the capture: the scores stored before are
    untouched, and the exception is not an error of the sampling but ends
    the whole program. *)
Theorem pscc_detail_tool_missing dev fuel wait_time s :
  popen_stdout dev
    (log s ++ [SubprocessPopen (play_command (filepath (self s))); Sleep wait_time;
               SubprocessRun (capture_command (rtsp (self s)) (filepath (self s)))])
    detail_command = None ->
  exists s', pscc dev fuel wait_time "detail" s = Raise SystemExit s'
             /\ self s' = self s.
Proof.
  intros H. unfold pscc. cbn [String.eqb Ascii.eqb Bool.eqb].
  cbv [bind play_scene gets emit capture_frames check_detail popen_communicate].
  cbn [self log filepath rtsp].
  rewrite <- !app_assoc. cbn [app]. rewrite H.
  eexists. split; reflexivity.
Qed.

Lemma pscc_detail_tool_missing_witness :
  exists s', pscc (Sim.scripted [] None) 20 5 "detail" Sim.scored = Raise SystemExit s'
             /\ self s' = self Sim.scored.
Proof.
  apply (pscc_detail_tool_missing (Sim.scripted [] None) 20 5 Sim.scored). reflexivity.
Defined.

(** On the camera whose readings settle with the twentieth sample only,
    the loop runs up to the bound. *)
Lemma check_motion_bounded_witness :
  ended (check_motion (Sim.scripted Sim.late_readings None) 20 Sim.start)
  /\ (List.length
        (motion_list
           (self (final (check_motion (Sim.scripted Sim.late_readings None) 20 Sim.start))))
      <= 20)%nat.
Proof.
  apply (check_motion_bounded (Sim.scripted Sim.late_readings None) 20 Sim.start).
  apply le_n.
Defined.

Example check_motion_reaches_the_bound :
  exists s',
    check_motion (Sim.scripted Sim.late_readings None) 20 Sim.start = Ok tt s'
    /\ List.length (motion_list (self s')) = 20%nat
    /\ Sim.count_ms (log s') = 20%nat.
Proof. eexists. split; [vm_compute; reflexivity|]. split; vm_compute; reflexivity. Qed.

(** X6. One round of [check_motion] with at least 10 and not exactly 20
    samples: when the ten most recent readings all equal the latest one,
    the round stores that reading as the motion score and ends the loop;
    when one of them differs, nothing is stored and polling goes on. *)
Theorem check_motion_round_settles dev s v :
  Py.re_search motion_pattern (console_output dev (log s) "ms") = Some v ->
  zattrs (self s) sample_range = Some 10 ->
  let l := (motion_list (self s) ++ [v])%list in
  let s1 := mkSt (with_motion_list l (self s)) (log s ++ [ConsoleCmd "ms"; Sleep 3]) in
  (10 <= List.length l)%nat -> List.length l <> 20%nat ->
  ((forall x, In x (Py.slice_from (-10) l) -> x = v) ->
   check_motion_body dev tt s
   = Ok (inr tt) (mkSt (with_zattr motion_score v (self s1)) (log s1)))
  /\ ((exists x, In x (Py.slice_from (-10) l) /\ x <> v) ->
      check_motion_body dev tt s = Ok (inl tt) s1).
Proof.
  intros Hv Hn l s1 H10 H20.
  pose proof (check_motion_body_run dev s v Hv Hn) as Hrun. cbv zeta in Hrun.
  fold l in Hrun. fold s1 in Hrun.
  replace (Z.of_nat (List.length l) <? 10) with false in Hrun by lia.
  replace (Z.of_nat (List.length l) =? 20) with false in Hrun by lia.
  assert (Hin : In v (Py.slice_from (-10) l)).
  { unfold l. rewrite slice_last_ten by exact H10. apply in_or_app. right. now left. }
  assert (Hne : Py.slice_from (-10) l <> []).
  { intros E. rewrite E in Hin. contradiction. }
  pose proof (var_zero_iff _ Hne) as Hvar.
  split.
  - intros Hall. rewrite Hrun.
    replace (Qeq_bool (Py.var (Py.slice_from (-10) l)) 0) with true; [reflexivity|].
    symmetry. apply Hvar. intros x y Hx Hy. rewrite (Hall x Hx), (Hall y Hy). reflexivity.
  - intros (x & Hx & Hxv). rewrite Hrun.
    destruct (Qeq_bool (Py.var (Py.slice_from (-10) l)) 0) eqn:E in |- *; [|reflexivity].
    exfalso. apply Hxv. exact (proj1 Hvar E x v Hx Hin).
Qed.

Lemma check_motion_round_settles_witness :
  let l := (motion_list (self Sim.polled) ++ [5])%list in
  let s1 := mkSt (with_motion_list l (self Sim.polled))
              (log Sim.polled ++ [ConsoleCmd "ms"; Sleep 3]) in
  ((forall x, In x (Py.slice_from (-10) l) -> x = 5) ->
   check_motion_body (Sim.scripted [5] None) tt Sim.polled
   = Ok (inr tt) (mkSt (with_zattr motion_score 5 (self s1)) (log s1)))
  /\ ((exists x, In x (Py.slice_from (-10) l) /\ x <> 5) ->
      check_motion_body (Sim.scripted [5] None) tt Sim.polled = Ok (inl tt) s1).
Proof.
  apply (check_motion_round_settles (Sim.scripted [5] None) Sim.polled 5).
  - reflexivity.
  - reflexivity.
  - vm_compute. apply le_n.
  - vm_compute. discriminate.
Defined.

(** ** What each search assigns *)

#[global] Instance changes_only_preorder zs qs rs : PreOrder (changes_only zs qs rs).
Proof.
  split.
  - intros s. unfold changes_only. intuition.
  - intros s1 s2 s3 (a1 & a2 & a3 & a4 & a5) (b1 & b2 & b3 & b4 & b5).
    unfold changes_only. repeat split; try congruence.
    + intros a H1 H2. rewrite b3, a3; auto.
    + intros a H1. rewrite b4, a4; auto.
    + destruct (b5 H), (a5 H). congruence.
    + destruct (b5 H) as (_ & ? & _), (a5 H) as (_ & ? & _). congruence.
    + destruct (b5 H) as (_ & _ & ? & _), (a5 H) as (_ & _ & ? & _). congruence.
    + destruct (b5 H) as (_ & _ & _ & ?), (a5 H) as (_ & _ & _ & ?). congruence.
Qed.

Lemma same_setup_changes_only zs qs rs s s' :
  same_setup s s' -> changes_only zs qs rs s s'.
Proof.
  intros (a1 & a2 & a3 & a4 & a5 & a6 & a7 & a8). unfold changes_only.
  repeat split; auto. intros a _. now rewrite a3.
Qed.

Lemma safe_changes_of_setup zs qs rs {A} (m : M A) :
  safe same_setup m -> safe (changes_only zs qs rs) m.
Proof.
  intros H s. apply post_weaken with (1 := H s); intros;
    apply same_setup_changes_only; assumption.
Qed.

Lemma safe_changes_set_z zs qs rs a v :
  zs a = true \/ measured a = true -> safe (changes_only zs qs rs) (set_z a v).
Proof.
  intros Ha s. apply post_modify. unfold changes_only. cbn. repeat split; auto.
  intros a' H1 H2. unfold upd.
  destruct (Pos.eqb_spec (ZAttr_code a') (ZAttr_code a)) as [E|E]; auto.
  assert (a' = a) by (destruct a, a'; try discriminate; reflexivity).
  subst a'. destruct Ha; congruence.
Qed.

Lemma safe_changes_set_q zs qs rs a v :
  qs a = true -> safe (changes_only zs qs rs) (set_q a v).
Proof.
  intros Ha s. apply post_modify. unfold changes_only. cbn. repeat split; auto.
  intros a' H1. unfold upd.
  destruct (Pos.eqb_spec (QAttr_code a') (QAttr_code a)) as [E|E]; auto.
  assert (a' = a) by (destruct a, a'; try discriminate; reflexivity).
  subst a'. congruence.
Qed.

Lemma safe_changes_rects zs qs f :
  (forall o, filepath (f o) = filepath o /\ rtsp (f o) = rtsp o
             /\ zattrs (f o) = zattrs o /\ qattrs (f o) = qattrs o) ->
  safe (changes_only zs qs true) (modify f).
Proof.
  intros Hf s. apply post_modify. unfold changes_only. cbn.
  destruct (Hf (self s)) as (h1 & h2 & h3 & h4).
  repeat split; try congruence; intros; try discriminate.
Qed.

Ltac safe_changes :=
  repeat first
    [ safe_step
    | apply safe_changes_of_setup;
      first [ apply safe_setup_make_scene | apply safe_setup_pscc
            | apply safe_setup_make_scene_self ]
    | apply safe_changes_set_z; first [ left; reflexivity | right; reflexivity ]
    | apply safe_changes_set_q; reflexivity
    | progress unfold set_r
    | apply safe_changes_rects; intros ?; repeat split ].

Lemma safe_changes_make_motion dev fuel :
  safe (changes_only make_motion_z make_motion_q false) (make_motion dev fuel).
Proof. unfold make_motion, make_motion_body. safe_changes. Qed.

Lemma safe_changes_hd_delta dev fuel :
  safe (changes_only hd_delta_z hd_delta_q false) (hd_delta dev fuel).
Proof. unfold hd_delta, hd_probe_body, hd_step_body, high_delta. safe_changes. Qed.

Lemma safe_changes_ld_rect dev fuel :
  safe (changes_only ld_rect_z ld_rect_q true) (ld_rect dev fuel).
Proof.
  unfold ld_rect, ld_rect_setup, bisection, bisection_body, right_edge, tune_rect.
  safe_changes.
Qed.

(** X7. Each search assigns only its own parameters, however it ends:
    [make_motion] only [mo_size]; [hd_delta] only [fineness] and
    [direction]; [ld_rect] only the rectangle data and its own limits. So
    [make_motion] and [ld_rect] never change the fineness, [hd_delta] and
    [ld_rect] never change the size of the motion object, [make_motion] and
    [hd_delta] never change a rectangle, and none of them changes a target,
    the tolerance or the resolution. *)
Theorem searches_assign_their_own_parameters dev fuel s :
  changes_only make_motion_z make_motion_q false s (final (make_motion dev fuel s))
  /\ changes_only hd_delta_z hd_delta_q false s (final (hd_delta dev fuel s))
  /\ changes_only ld_rect_z ld_rect_q true s (final (ld_rect dev fuel s)).
Proof.
  split; [|split].
  - apply (safe_final _ _ s (safe_changes_make_motion dev fuel)).
  - apply (safe_final _ _ s (safe_changes_hd_delta dev fuel)).
  - apply (safe_final _ _ s (safe_changes_ld_rect dev fuel)).
Qed.

(** ** More on the motion-size bisection *)

Lemma while_ok_invariant {X B} (body : X -> M (X + B)) (I : X -> St -> Prop) :
  (forall x s x' s', I x s -> body x s = Ok (inl x') s' -> I x' s') ->
  forall fuel x s b s',
    I x s -> while_true fuel body x s = Ok b s' ->
    exists x0 s0, I x0 s0 /\ body x0 s0 = Ok (inr b) s'.
Proof.
  intros Hstep. induction fuel as [|fuel IH]; intros x s b s' HI H; [discriminate|].
  cbn [while_true] in H. apply bind_ok in H. destruct H as ([x1|b1] & s1 & Hb & H).
  - exact (IH _ _ _ _ (Hstep _ _ _ _ HI Hb) H).
  - apply ret_ok in H. destruct H as [-> ->]. eauto.
Qed.



(** ** What is written while sampling *)

#[global] Instance measuring_preorder : PreOrder measuring.
Proof.
  split.
  - intros s. split; [reflexivity | apply appends_refl].
  - intros s1 s2 s3 [S1 A1] [S2 A2]. split; [etransitivity; eauto|].
    eapply appends_trans; eauto.
Qed.

Lemma safe_measuring_modify f :
  (forall s, same_setup s (mkSt (f (self s)) (log s))) -> safe measuring (modify f).
Proof.
  intros Hf s. apply post_modify. split; [apply Hf | apply appends_same_log].
Qed.

Lemma safe_measuring_emit e : quiet e -> safe measuring (emit e).
Proof.
  intros He s. apply post_emit. split.
  - unfold same_setup. cbn. intuition.
  - apply appends_one, He.
Qed.

Lemma safe_measuring_console dev c : safe measuring (execute_console_cmd dev c).
Proof.
  intros s. unfold post, execute_console_cmd. split.
  - unfold same_setup. cbn. intuition.
  - apply appends_one. exact I.
Qed.

Lemma safe_measuring_popen dev c : safe measuring (popen_communicate dev c).
Proof.
  intros s. unfold post, popen_communicate. split.
  - unfold same_setup. cbn. intuition.
  - apply appends_one. exact I.
Qed.

Lemma same_setup_set_measured a v s :
  measured a = true -> same_setup s (mkSt (with_zattr a v (self s)) (log s)).
Proof. intros Ha. exact (safe_setup_set_z a v Ha s). Qed.

Lemma same_setup_set_motion_list l s :
  same_setup s (mkSt (with_motion_list l (self s)) (log s)).
Proof. exact (safe_setup_motion_list l s). Qed.

Lemma safe_measuring_pscc dev fuel w p : safe measuring (pscc dev fuel w p).
Proof.
  unfold pscc, play_scene, capture_frames, check_detail, check_motion,
    check_motion_body.
  repeat first
    [ safe_step
    | progress unfold set_z
    | apply safe_measuring_console | apply safe_measuring_popen
    | apply safe_measuring_emit; exact I
    | apply safe_measuring_modify; intros ?;
      first [ apply same_setup_set_measured; reflexivity
            | apply same_setup_set_motion_list ] ].
Qed.

#[global] Instance appends_preorder G : PreOrder (appends G).
Proof.
  split.
  - intros s. apply appends_refl.
  - intros s1 s2 s3. apply appends_trans.
Qed.

Lemma appends_weaken (G G' : Event -> Prop) s s' :
  (forall e, G e -> G' e) -> appends G s s' -> appends G' s s'.
Proof.
  intros HG (evs & Hl & Hf). exists evs. split; [exact Hl|].
  eapply Forall_impl; eauto.
Qed.

Lemma safe_appends_modify G f : safe (appends G) (modify f).
Proof. intros s. apply post_modify. apply appends_same_log. Qed.

Lemma safe_appends_emit (G : Event -> Prop) e : G e -> safe (appends G) (emit e).
Proof. intros He s. apply post_emit. apply appends_one, He. Qed.

Lemma safe_appends_quiet (G : Event -> Prop) {A} (m : M A) :
  (forall e, quiet e -> G e) -> safe measuring m -> safe (appends G) m.
Proof.
  intros HG Hm s. apply post_weaken with (1 := Hm s);
    intros; eapply appends_weaken; eauto; apply H.
Qed.

Lemma quiet_plain e : quiet e -> plain_frame e.
Proof. destruct e; simpl; auto. contradiction. Qed.

Lemma safe_plain_make_scene mo l h name :
  safe (appends plain_frame) (make_scene mo l h 6 default_rect default_rect name).
Proof.
  unfold make_scene, make_frame.
  repeat first
    [ safe_step
    | progress unfold set_z
    | apply safe_appends_modify
    | apply safe_appends_emit; cbn; auto ].
Qed.

(** X9. [make_motion] calibrates the motion object on plain scenes: every
    frame it writes has the default background tile of edge 6, whatever
    [self.fineness] is, and no auxiliary rectangle, whatever [self.rect1]
    and [self.rect2] hold. *)
Theorem make_motion_shows_plain_scenes dev fuel s :
  appends plain_frame s (final (make_motion dev fuel s)).
Proof.
  apply (safe_final (appends plain_frame)).
  unfold make_motion, make_motion_body.
  repeat first
    [ safe_step
    | apply safe_plain_make_scene
    | apply (safe_appends_quiet plain_frame _ quiet_plain), safe_measuring_pscc
    | progress unfold set_q
    | apply safe_appends_modify ].
Qed.

(** ** More on scene assembly and the high-detail search *)

Lemma make_scene_ok mo f r1 r2 name s u s' :
  make_scene mo None None f r1 r2 name s = Ok u s' ->
  exists hr vr,
    zattrs (self s) hor_res = Some hr /\ zattrs (self s) ver_res = Some vr
    /\ s' = mkSt (with_zattr mo_size_y (Py.int (inject_Z hr * (1 # 10))) (self s))
              (log s ++ scene_events (filepath (self s)) mo hr vr
                          (Py.int (inject_Z hr * (1 # 10))) f r1 r2 name).
Proof.
  intros H.
  destruct (zattrs (self s) hor_res) as [hr|] eqn:Eh.
  - destruct (zattrs (self s) ver_res) as [vr|] eqn:Ev.
    + rewrite (make_scene_run _ _ _ _ _ _ _ _ Eh Ev) in H. inversion H.
      exists hr, vr. auto.
    + exfalso. unfold make_scene in H.
      rewrite (bind_run _ _ _ _ _ (attr_z_run _ _ _ Eh)) in H.
      unfold set_z at 1 in H. unfold modify at 1 in H. unfold bind at 1 in H.
      set (s1 := mkSt _ (log s)) in H.
      assert (H1 : zattrs (self s1) hor_res = Some hr) by exact Eh.
      rewrite (bind_run _ _ _ _ _ (attr_z_run _ _ _ H1)) in H.
      unfold bind at 1 in H. unfold attr_z at 1 in H. unfold attr at 1 in H.
      assert (H2 : zattrs (self s1) ver_res = None) by exact Ev.
      rewrite H2 in H. discriminate.
  - exfalso. unfold make_scene in H. unfold bind at 1 in H.
    unfold attr_z at 1 in H. unfold attr at 1 in H. rewrite Eh in H. discriminate.
Qed.

Lemma make_scene_self_ok r1 r2 name s u s' :
  make_scene_self r1 r2 name s = Ok u s' ->
  exists hr vr mo f,
    zattrs (self s) hor_res = Some hr /\ zattrs (self s) ver_res = Some vr
    /\ qattrs (self s) mo_size = Some mo /\ zattrs (self s) fineness = Some f
    /\ s' = mkSt (with_zattr mo_size_y (Py.int (inject_Z hr * (1 # 10))) (self s))
              (log s ++ scene_events (filepath (self s)) mo hr vr
                          (Py.int (inject_Z hr * (1 # 10))) f r1 r2 name).
Proof.
  unfold make_scene_self. intros H.
  bind_inv H mo s1 H1. apply attr_q_ok in H1. destruct H1 as [-> Hmo].
  bind_inv H f s1 H1. apply attr_z_ok in H1. destruct H1 as [-> Hf].
  apply make_scene_ok in H. destruct H as (hr & vr & Hh & Hv & ->).
  exists hr, vr, mo, f. auto.
Qed.

Lemma hd_step_body_trace dev fuel delta s r s' :
  hd_step_body dev fuel delta s = Ok r s' ->
  exists f d r1 r2 hr vr mo evs,
    zattrs (self s) fineness = Some f /\ zattrs (self s) direction = Some d
    /\ log s' = (log s ++ scene_events (filepath (self s)) mo hr vr
                            (Py.int (inject_Z hr * (1 # 10))) (f + d) r1 r2 "scene"
                 ++ evs)%list
    /\ Forall quiet evs.
Proof.
  unfold hd_step_body. intros H.
  bind_inv H f s0 H0. apply attr_z_ok in H0. destruct H0 as [-> Hf].
  bind_inv H d s0 H0. apply attr_z_ok in H0. destruct H0 as [-> Hd].
  bind_inv H u1 s1 H1. apply set_z_ok in H1.
  bind_inv H r1 s2 H2. apply attr_r_ok in H2. destruct H2 as [-> _].
  bind_inv H r2 s3 H3. apply attr_r_ok in H3. destruct H3 as [-> _].
  bind_inv H u4 s4 H4. apply make_scene_self_ok in H4.
  destruct H4 as (hr & vr & mo & f' & _ & _ & _ & Hf' & Hs4).
  bind_inv H u5 s5 H5. apply (safe_ok measuring) in H5; [|apply safe_measuring_pscc].
  destruct H5 as [_ (evs & Hlog & Hq)].
  bind_inv H delta' s6 H6. apply high_delta_ok in H6. destruct H6 as (-> & _).
  assert (Ef : f' = f + d).
  { subst s1. cbn in Hf'. inversion Hf'. reflexivity. }
  assert (Hlog5 : log s5 = (log s ++ scene_events (filepath (self s)) mo hr vr
                              (Py.int (inject_Z hr * (1 # 10))) (f + d) r1 r2 "scene"
                            ++ evs)%list).
  { rewrite Hlog, Hs4. subst s1 f'. cbn [log self filepath with_zattr].
    rewrite <- app_assoc. reflexivity. }
  assert (Hend : log s' = log s5).
  { destruct (delta' <? delta).
    - apply ret_ok in H. destruct H as [-> _]. reflexivity.
    - destruct (delta' >? delta).
      + bind_inv H f2 s7 H7. apply attr_z_ok in H7. destruct H7 as [-> _].
        bind_inv H d2 s7 H7. apply attr_z_ok in H7. destruct H7 as [-> _].
        bind_inv H u8 s8 H8. apply set_z_ok in H8.
        apply ret_ok in H. destruct H as [-> _]. subst s8. reflexivity.
      + apply ret_ok in H. destruct H as [-> _]. reflexivity. }
  exists f, d, r1, r2, hr, vr, mo, evs. rewrite Hend. auto.
Qed.

Lemma hd_step_body_filepath dev fuel delta s r s' :
  hd_step_body dev fuel delta s = Ok r s' -> filepath (self s') = filepath (self s).
Proof.
  intros H.
  assert (Hs : safe (changes_only hd_delta_z hd_delta_q false) (hd_step_body dev fuel delta)).
  { unfold hd_step_body, high_delta. safe_changes. }
  destruct (safe_ok _ _ _ _ _ Hs H) as (Hf & _). exact Hf.
Qed.

(** X10. When [hd_delta] returns, the scene it assembled last, and the one
    [self.high_detail] was measured on, is not the scene of the fineness it
    returns with: it is the scene one step further in the search direction,
    the one whose delta grew. The direction is +1 or -1. *)
Theorem hd_delta_leaves_the_overshoot_on_display dev fuel s s' :
  hd_delta dev fuel s = Ok tt s' ->
  exists f d pre r1 r2 hr vr mo msy evs,
    zattrs (self s') fineness = Some f
    /\ zattrs (self s') direction = Some d /\ (d = 1 \/ d = -1)
    /\ log s' = (pre ++ scene_events (filepath (self s')) mo hr vr msy (f + d) r1 r2 "scene"
                 ++ evs)%list
    /\ Forall quiet evs.
Proof.
  unfold hd_delta. intros H.
  bind_inv H delta_i s1 H1. apply high_delta_ok in H1. destruct H1 as (-> & _).
  bind_inv H delta s2 H2.
  apply while_ok_last in H2. destruct H2 as (x0 & s0 & Hprobe). destruct x0.
  destruct (hd_probe_body_ok _ _ _ _ _ _ Hprobe) as
    (f0 & hv & t & _ & _ & _ & _ & Hlt & Hgt & Heq).
  assert (Hdir : exists d, zattrs (self s2) direction = Some d /\ (d = 1 \/ d = -1)).
  { destruct (Z.lt_trichotomy (Z.abs (hv - t)) delta_i) as [L|[E|G]].
    - destruct (Hlt L) as [_ Hd]. eauto.
    - pose proof (Heq E). discriminate.
    - assert (G' : Z.abs (hv - t) > delta_i) by lia.
      destruct (Hgt G') as [_ Hd]. eauto. }
  destruct Hdir as (d & Hd & Hd1).
  apply (while_ok_invariant _
           (fun _ st => zattrs (self st) direction = Some d
                        /\ filepath (self st) = filepath (self s2))) in H.
  - destruct H as (pd & s3 & [Hd3 Hfp3] & Hstep).
    destruct (hd_step_body_ok _ _ _ _ _ _ Hstep) as
      (f & d' & hv' & t' & Hf & Hd' & Hd'' & _ & _ & Hle & Hgt').
    destruct (hd_step_body_trace _ _ _ _ _ _ Hstep) as
      (f2 & d2 & r1 & r2 & hr & vr & mo & evs & Hf2 & Hd2 & Hlog & Hq).
    rewrite Hf in Hf2. inversion Hf2; subst f2.
    rewrite Hd' in Hd2. inversion Hd2; subst d2.
    rewrite Hd3 in Hd'. inversion Hd'; subst d'.
    assert (Hfin : zattrs (self s') fineness = Some f).
    { destruct (Z.le_gt_cases (Z.abs (hv' - t')) pd) as [L|G].
      - destruct (Hle L) as [Hr _]. discriminate.
      - apply Hgt'. lia. }
    pose proof (hd_step_body_filepath _ _ _ _ _ _ Hstep) as Hfp.
    exists f, d, (log s3), r1, r2, hr, vr, mo, (Py.int (inject_Z hr * (1 # 10))), evs.
    rewrite Hfp. repeat split; auto.
  - intros x st x' st' [Hdx Hfx] Hb.
    destruct (hd_step_body_ok _ _ _ _ _ _ Hb) as
      (f & d' & hv' & t' & _ & Hd' & Hd'' & _).
    split; [congruence|].
    rewrite (hd_step_body_filepath _ _ _ _ _ _ Hb). exact Hfx.
  - split; [exact Hd | reflexivity].
Qed.

Lemma hd_delta_leaves_the_overshoot_on_display_witness :
  exists f d pre r1 r2 hr vr mo msy evs,
    zattrs (self (final (hd_delta Sim.camera 20 Sim.tuning))) fineness = Some f
    /\ zattrs (self (final (hd_delta Sim.camera 20 Sim.tuning))) direction = Some d
    /\ (d = 1 \/ d = -1)
    /\ log (final (hd_delta Sim.camera 20 Sim.tuning))
       = (pre ++ scene_events (filepath (self (final (hd_delta Sim.camera 20 Sim.tuning))))
                   mo hr vr msy (f + d) r1 r2 "scene"
          ++ evs)%list
    /\ Forall quiet evs.
Proof.
  apply (hd_delta_leaves_the_overshoot_on_display Sim.camera 20 Sim.tuning).
  vm_compute. reflexivity.
Defined.

(** ** The scenario procedures *)

Lemma changes_only_weaken (zs zs' : ZAttr -> bool) (qs qs' : QAttr -> bool) rs rs' s s' :
  (forall a, zs a = true -> zs' a = true) ->
  (forall a, qs a = true -> qs' a = true) ->
  (rs = true -> rs' = true) ->
  changes_only zs qs rs s s' -> changes_only zs' qs' rs' s s'.
Proof.
  intros Hz Hq Hr (a1 & a2 & a3 & a4 & a5). unfold changes_only.
  split; [exact a1|]. split; [exact a2|]. split; [|split].
  - intros a H1 H2. apply a3; [|exact H2].
    destruct (zs a) eqn:E; [|reflexivity]. rewrite (Hz a E) in H1. discriminate.
  - intros a H1. apply a4.
    destruct (qs a) eqn:E; [|reflexivity]. rewrite (Hq a E) in H1. discriminate.
  - intros H. apply a5. destruct rs; [|reflexivity]. rewrite (Hr eq_refl) in H. discriminate.
Qed.

Lemma safe_weaken (R R' : St -> St -> Prop) {A} (m : M A) :
  (forall s s', R s s' -> R' s s') -> safe R m -> safe R' m.
Proof. intros HR Hm s. apply post_weaken with (1 := Hm s); auto. Qed.

Lemma safe_keeps_target_make_motion dev fuel :
  safe keeps_motion_target (make_motion dev fuel).
Proof.
  apply (safe_weaken (changes_only make_motion_z make_motion_q false));
    [|apply safe_changes_make_motion].
  intros s s'. apply changes_only_weaken; auto.
  intros a Ha. discriminate.
Qed.

Lemma safe_keeps_target_hd_delta dev fuel :
  safe keeps_motion_target (hd_delta dev fuel).
Proof.
  apply (safe_weaken (changes_only hd_delta_z hd_delta_q false)); [|apply safe_changes_hd_delta].
  intros s s'. apply changes_only_weaken; auto.
  intros a Ha. destruct a; try discriminate; reflexivity.
Qed.

Lemma safe_keeps_target_ld_rect dev fuel :
  safe keeps_motion_target (ld_rect dev fuel).
Proof.
  apply (safe_weaken (changes_only ld_rect_z ld_rect_q true)); [|apply safe_changes_ld_rect].
  intros s s'. apply changes_only_weaken; auto.
  intros a Ha. destruct a; try discriminate; reflexivity.
Qed.

Ltac safe_keeps_target :=
  unfold keeps_motion_target;
  repeat first
    [ apply safe_keeps_target_make_motion | apply safe_keeps_target_hd_delta
    | apply safe_keeps_target_ld_rect
    | safe_step
    | apply safe_changes_of_setup;
      first [ apply safe_setup_make_scene | apply safe_setup_pscc
            | apply safe_setup_make_scene_self ]
    | apply safe_changes_set_z; left; reflexivity
    | apply safe_changes_set_q; reflexivity
    | progress unfold set_r
    | apply safe_changes_rects; intros ?; repeat split ].

(** Go down a run that ended normally, keeping what the attribute reads
    returned. *)
Ltac descend H :=
  repeat lazymatch type of H with
    | bind (attr_z _) _ _ = Ok _ _ =>
        let a := fresh "v" in let s1 := fresh "s" in let Ha := fresh "Hv" in
        apply bind_ok in H; destruct H as (a & s1 & Ha & H);
        apply attr_z_ok in Ha; destruct Ha as [-> Ha]
    | bind (attr_q _) _ _ = Ok _ _ =>
        let a := fresh "v" in let s1 := fresh "s" in let Ha := fresh "Hv" in
        apply bind_ok in H; destruct H as (a & s1 & Ha & H);
        apply attr_q_ok in Ha; destruct Ha as [-> Ha]
    | bind (attr_r _) _ _ = Ok _ _ =>
        let a := fresh "v" in let s1 := fresh "s" in let Ha := fresh "Hv" in
        apply bind_ok in H; destruct H as (a & s1 & Ha & H);
        apply attr_r_ok in Ha; destruct Ha as [-> Ha]
    | bind _ _ _ = Ok _ _ =>
        let a := fresh "v" in let s1 := fresh "s" in
        apply bind_ok in H; destruct H as (a & s1 & _ & H)
    end.

Lemma high_detail_scenes_last dev fuel mt s s' :
  high_detail_scenes dev fuel mt s = Ok tt s' ->
  zattrs (self s') motion_target = Some mt
  /\ exists pre hr vr mo f r1,
       qattrs (self s') mo_size = Some mo /\ zattrs (self s') fineness = Some f
       /\ rattrs (self s') rect1 = Some r1
       /\ log s' = (pre ++ scene_events (filepath (self s')) mo hr vr
                             (Py.int (inject_Z hr * (1 # 10))) f r1 default_rect
                             ("high_" ++ Py.str mt ++ "%"))%list.
Proof.
  unfold high_detail_scenes. intros H.
  bind_inv H u1 s1 H1. bind_inv H u2 s2 H2. bind_inv H u3 s3 H3.
  apply set_z_ok in H3.
  assert (Hmt : zattrs (self s') motion_target = Some mt).
  { apply (safe_ok keeps_motion_target) in H.
    - destruct H as (_ & _ & Hz & _). rewrite Hz by reflexivity. subst s3. reflexivity.
    - unfold high_rect_body, make_plain_scene. safe_keeps_target. }
  split; [exact Hmt|].
  descend H.
  apply make_scene_self_ok in H.
  destruct H as (hr & vr & mo & f & Hhr & Hvr & Hmo & Hf & ->).
  cbn [self log filepath with_zattr zattrs qattrs rattrs upd ZAttr_code Pos.eqb] in *.
  match goal with
  | Hr : rattrs (self ?st) rect1 = Some ?r, Ht : zattrs (self ?st) motion_target = Some ?t
    |- _ => rewrite Ht in Hmt; inversion Hmt; subst t;
            exists (log st), hr, vr, mo, f, r; auto
  end.
Qed.

Lemma low_detail_scenes_last dev fuel mt s s' :
  low_detail_scenes dev fuel mt s = Ok tt s' ->
  zattrs (self s') motion_target = Some mt
  /\ exists pre hr vr mo f r1 r2,
       qattrs (self s') mo_size = Some mo /\ zattrs (self s') fineness = Some f
       /\ rattrs (self s') rect1 = Some r1 /\ rattrs (self s') rect2 = Some r2
       /\ log s' = (pre ++ scene_events (filepath (self s')) mo hr vr
                             (Py.int (inject_Z hr * (1 # 10))) f r1 r2
                             ("low_" ++ Py.str mt ++ "%"))%list.
Proof.
  unfold low_detail_scenes. intros H.
  bind_inv H u1 s1 H1. bind_inv H u2 s2 H2. bind_inv H u3 s3 H3.
  apply set_z_ok in H3.
  assert (Hmt : zattrs (self s') motion_target = Some mt).
  { apply (safe_ok keeps_motion_target) in H.
    - destruct H as (_ & _ & Hz & _). rewrite Hz by reflexivity. subst s3. reflexivity.
    - unfold low_fineness_body, make_plain_scene. safe_keeps_target. }
  split; [exact Hmt|].
  descend H.
  apply make_scene_self_ok in H.
  destruct H as (hr & vr & mo & f & Hhr & Hvr & Hmo & Hf & ->).
  cbn [self log filepath with_zattr zattrs qattrs rattrs upd ZAttr_code Pos.eqb] in *.
  match goal with
  | Hr : rattrs (self ?st) rect1 = Some ?r, Hr' : rattrs (self ?st) rect2 = Some ?r',
    Ht : zattrs (self ?st) motion_target = Some ?t
    |- _ => rewrite Ht in Hmt; inversion Hmt; subst t;
            exists (log st), hr, vr, mo, f, r, r'; auto
  end.
Qed.

Lemma medium_detail_scenes_last dev fuel mt s s' :
  medium_detail_scenes dev fuel mt s = Ok tt s' ->
  zattrs (self s') motion_target = Some mt
  /\ exists pre hr vr mo f r1 r2 evs,
       qattrs (self s') mo_size = Some mo /\ zattrs (self s') fineness = Some f
       /\ rattrs (self s') rect1 = Some r1 /\ rattrs (self s') rect2 = Some r2
       /\ log s' = (pre ++ scene_events (filepath (self s')) mo hr vr
                             (Py.int (inject_Z hr * (1 # 10))) f r1 r2
                             ("medium_" ++ Py.str mt ++ "%")
                    ++ evs)%list
       /\ Forall quiet evs.
Proof.
  unfold medium_detail_scenes. intros H.
  bind_inv H u1 s1 H1. bind_inv H u2 s2 H2. bind_inv H u3 s3 H3.
  apply set_z_ok in H3.
  assert (Hmt : zattrs (self s') motion_target = Some mt).
  { apply (safe_ok keeps_motion_target) in H.
    - destruct H as (_ & _ & Hz & _). rewrite Hz by reflexivity. subst s3. reflexivity.
    - unfold make_plain_scene. safe_keeps_target. }
  split; [exact Hmt|].
  bind_inv H u4 s4 H4. bind_inv H u5 s5 H5. bind_inv H u6 s6 H6. bind_inv H u7 s7 H7.
  bind_inv H r1 s8 H8. apply attr_r_ok in H8. destruct H8 as [-> Hr1].
  bind_inv H r2 s8 H8. apply attr_r_ok in H8. destruct H8 as [-> Hr2].
  bind_inv H t s8 H8. apply attr_z_ok in H8. destruct H8 as [-> Ht].
  bind_inv H u9 s9 H9.
  apply make_scene_self_ok in H9.
  destruct H9 as (hr & vr & mo & f & Hhr & Hvr & Hmo & Hf & Hs9).
  apply (safe_ok measuring) in H; [|apply safe_measuring_pscc].
  destruct H as [(Hfp & _ & Hq & Hr & _ & _ & _ & Hz) (evs & Hlog & Hquiet)].
  assert (Et : t = mt).
  { rewrite Hz in Hmt by reflexivity. subst s9. cbn in Hmt. congruence. }
  subst t. exists (log s7), hr, vr, mo, f, r1, r2, evs.
  rewrite Hq, Hr, Hz, Hfp, Hlog by reflexivity. subst s9.
  cbn [self log filepath with_zattr zattrs qattrs rattrs upd ZAttr_code Pos.eqb].
  rewrite <- app_assoc. auto 10.
Qed.

(** X11. A scenario procedure that returns has assembled its final clip
    from the parameters it returns with (the size of the motion object, the
    fineness and the rectangles held by the object), under the name built
    from the motion target it was called with: [high_N%] with [rect1] and no
    second rectangle, [low_N%] and [medium_N%] with both rectangles. For
    [high] and [low] assembling that clip is the last thing done; [medium]
    still plays and samples once, and writes no frame after it. *)
Theorem scenarios_end_with_the_named_scene dev fuel mt s s' :
  (high_detail_scenes dev fuel mt s = Ok tt s' ->
   zattrs (self s') motion_target = Some mt
   /\ exists pre hr vr mo f r1,
        qattrs (self s') mo_size = Some mo /\ zattrs (self s') fineness = Some f
        /\ rattrs (self s') rect1 = Some r1
        /\ log s' = (pre ++ scene_events (filepath (self s')) mo hr vr
                              (Py.int (inject_Z hr * (1 # 10))) f r1 default_rect
                              ("high_" ++ Py.str mt ++ "%"))%list)
  /\ (low_detail_scenes dev fuel mt s = Ok tt s' ->
      zattrs (self s') motion_target = Some mt
      /\ exists pre hr vr mo f r1 r2,
           qattrs (self s') mo_size = Some mo /\ zattrs (self s') fineness = Some f
           /\ rattrs (self s') rect1 = Some r1 /\ rattrs (self s') rect2 = Some r2
           /\ log s' = (pre ++ scene_events (filepath (self s')) mo hr vr
                                 (Py.int (inject_Z hr * (1 # 10))) f r1 r2
                                 ("low_" ++ Py.str mt ++ "%"))%list)
  /\ (medium_detail_scenes dev fuel mt s = Ok tt s' ->
      zattrs (self s') motion_target = Some mt
      /\ exists pre hr vr mo f r1 r2 evs,
           qattrs (self s') mo_size = Some mo /\ zattrs (self s') fineness = Some f
           /\ rattrs (self s') rect1 = Some r1 /\ rattrs (self s') rect2 = Some r2
           /\ log s' = (pre ++ scene_events (filepath (self s')) mo hr vr
                                 (Py.int (inject_Z hr * (1 # 10))) f r1 r2
                                 ("medium_" ++ Py.str mt ++ "%")
                        ++ evs)%list
           /\ Forall quiet evs).
Proof.
  split; [|split].
  - apply high_detail_scenes_last.
  - apply low_detail_scenes_last.
  - apply medium_detail_scenes_last.
Qed.

(** The three scenarios return on the simulated camera. *)
Example scenarios_return_on_camera :
  ended (high_detail_scenes Sim.camera 30 10 Sim.start)
  /\ ended (low_detail_scenes Sim.camera 30 10 Sim.start)
  /\ ended (medium_detail_scenes Sim.camera 30 10 Sim.start)
  /\ zattrs (self (final (low_detail_scenes Sim.camera 30 10 Sim.start))) low_detail
     = Some 59.
Proof. vm_compute. auto. Qed.












(** On the coarse camera the rectangle loop is entered: the fineness search
    leaves the score above the target, and the loop settles on a rectangle
    of positive length. *)
Example high_detail_scenes_on_coarse_camera :
  rattrs (self (final (high_detail_scenes Sim.coarse_camera 30 10 Sim.start))) rect1
  = Some (mkRect 384 0 268 2160)
  /\ zattrs (self (final (high_detail_scenes Sim.coarse_camera 30 10 Sim.start))) high_detail
     = Some 62.
Proof. vm_compute. split; reflexivity. Qed.

(** ** Scores that are found *)

Lemma int_of_digits_nonneg ds :
  Forall (fun c => Py.is_digit c = true) ds -> 0 <= Py.int_of_digits ds.
Proof.
  unfold Py.int_of_digits. intros H.
  assert (G : forall acc, 0 <= acc ->
            0 <= fold_left (fun acc c => 10 * acc + (Z.of_nat (nat_of_ascii c) - 48)) ds acc).
  { induction H as [|c ds Hc Hd IH]; intros acc Hacc; cbn [fold_left]; [exact Hacc|].
    apply IH. unfold Py.is_digit in Hc. apply andb_true_iff in Hc.
    destruct Hc as [H1 _]. apply Nat.leb_le in H1. lia. }
  apply G. lia.
Qed.

Lemma re_search_some p s v :
  Py.re_search p s = Some v -> shows_score p s v /\ 0 <= v.
Proof.
  unfold Py.re_search. intros H.
  destruct (Py.search_from (Py.pre p) (Py.post p) (list_ascii_of_string s)) as [d|] eqn:E;
    [|discriminate].
  simpl in H. inversion H. subst v. clear H.
  apply search_from_some in E.
  destruct E as (before & w1 & w2 & after & H1 & H2 & H3 & H4 & H5).
  split; [|apply int_of_digits_nonneg; exact H4].
  exists before, w1, d, w2, after. auto 10.
Qed.

Lemma re_search_found p s :
  Py.suffix_starts_off_digits p -> Py.contains_match p s ->
  exists v, Py.re_search p s = Some v.
Proof.
  intros Hp Hc. destruct (Py.re_search p s) as [v|] eqn:E; [eauto|].
  apply (re_search_none _ _ Hp) in E. contradiction.
Qed.

(** X14. [check_detail] stores what the detail program printed: when the
    output holds [HighDetail: N%] somewhere, the high-detail score stored is
    the decimal value of a run of digits that stands in the output between
    [HighDetail:] with one white-space character and [%]; likewise for
    [LowDetail: N%]. A stored score is never negative. *)
Theorem check_detail_stores_printed_scores dev s text :
  popen_stdout dev (log s) detail_command = Some text ->
  exists s',
    check_detail dev s = Ok tt s'
    /\ (Py.contains_match high_pattern text ->
        exists v, zattrs (self s') high_detail = Some v
                  /\ shows_score high_pattern text v /\ 0 <= v)
    /\ (Py.contains_match low_pattern text ->
        exists v, zattrs (self s') low_detail = Some v
                  /\ shows_score low_pattern text v /\ 0 <= v).
Proof.
  intros Ht. rewrite (check_detail_run dev s text Ht). eexists.
  split; [reflexivity|]. split; intros Hc.
  - destruct (re_search_found _ _ high_pattern_shape Hc) as [v Hv].
    exists v. split; [|exact (re_search_some _ _ _ Hv)].
    rewrite Hv. destruct (Py.re_search low_pattern text); reflexivity.
  - destruct (re_search_found _ _ low_pattern_shape Hc) as [v Hv].
    exists v. split; [|exact (re_search_some _ _ _ Hv)].
    rewrite Hv. reflexivity.
Qed.

Lemma check_detail_stores_printed_scores_witness :
  exists s',
    check_detail (Sim.scripted [] (Some (Sim.detail_text 42 17))) Sim.start = Ok tt s'
    /\ (Py.contains_match high_pattern (Sim.detail_text 42 17) ->
        exists v, zattrs (self s') high_detail = Some v
                  /\ shows_score high_pattern (Sim.detail_text 42 17) v /\ 0 <= v)
    /\ (Py.contains_match low_pattern (Sim.detail_text 42 17) ->
        exists v, zattrs (self s') low_detail = Some v
                  /\ shows_score low_pattern (Sim.detail_text 42 17) v /\ 0 <= v).
Proof.
  apply (check_detail_stores_printed_scores
           (Sim.scripted [] (Some (Sim.detail_text 42 17))) Sim.start
           (Sim.detail_text 42 17)).
  reflexivity.
Defined.

(** On that output the scores stored are the ones printed. *)
Example check_detail_reads_42_and_17 :
  Py.contains_match high_pattern (Sim.detail_text 42 17)
  /\ Py.contains_match low_pattern (Sim.detail_text 42 17)
  /\ zattrs (self (final (check_detail (Sim.scripted [] (Some (Sim.detail_text 42 17)))
                            Sim.start))) high_detail = Some 42
  /\ zattrs (self (final (check_detail (Sim.scripted [] (Some (Sim.detail_text 42 17)))
                            Sim.start))) low_detail = Some 17.
Proof.
  split; [|split; [|split; reflexivity]].
  - destruct (Py.re_search high_pattern (Sim.detail_text 42 17)) as [v|] eqn:E;
      [|discriminate].
    destruct (re_search_some _ _ _ E) as ((b & w1 & ds & w2 & a & H) & _).
    exists b, w1, ds, w2, a. tauto.
  - destruct (Py.re_search low_pattern (Sim.detail_text 42 17)) as [v|] eqn:E;
      [|discriminate].
    destruct (re_search_some _ _ _ E) as ((b & w1 & ds & w2 & a & H) & _).
    exists b, w1, ds, w2, a. tauto.
Qed.

(** ** The exceptions that leave the procedures *)




Lemma hoare_raise (P : Exn -> Prop) (I J : St -> Prop) {A} e :
  P e -> hoare P I (@raise A e) J.
Proof. intros He s Hs. exact He. Qed.



















(** *** Indexing the lists of [ld_rect] *)


















